(** * Async local storage: IndexedDB backend, localStorage fallback

    A shallow embedding of the storage backends of the library
    (the [IndexedDBDatabase] class in its two revisions and the
    [LocalStorageDatabase] class) together with the part of the browser
    they talk to: JavaScript values, [JSON], the Web Storage API, and an
    IndexedDB engine that runs transactions in creation order. *)

From Stdlib Require Import ZArith Bool Lia Ascii String DecimalString.
From stdpp Require Import base option list strings gmap fin_maps.

Set Warnings "-register-all".
Local Open Scope string_scope.

(** ** JavaScript values *)

(** The values the library stores and returns.  Numbers are the integers
    (the doubles of JavaScript are not modelled); an object is the list of
    its own enumerable properties in insertion order. *)
Inductive jsval : Type :=
| JUndefined
| JNull
| JBool (b : bool)
| JNumber (n : Z)
| JString (s : string)
| JArray (items : list jsval)
| JObject (fields : list (string * jsval)).

Inductive JSError : Type :=
| Error (message : string)
| TypeError (message : string)
| SyntaxError (message : string)
| DOMException (name : string) (message : string).

(** [error.message] *)
Definition message_of (e : JSError) : string :=
  match e with
  | Error m | TypeError m | SyntaxError m | DOMException _ m => m
  end.

(** What evaluating an expression or calling a function gives: a value,
    or a thrown exception. *)
Inductive completion (A : Type) : Type :=
| Normal (a : A)
| Throw (e : JSError).
Arguments Normal {A} a.
Arguments Throw {A} e.

Definition cbind {A B} (c : completion A) (k : A -> completion B) : completion B :=
  match c with
  | Normal a => k a
  | Throw e => Throw e
  end.

(** [try { body } catch (error) { handler }] *)
Definition try_catch {A} (body : completion A) (handler : JSError -> completion A)
  : completion A :=
  match body with
  | Normal a => Normal a
  | Throw e => handler e
  end.

(** [a && b], which evaluates [b] only when [a] is true. *)
Definition and_then (a : completion bool) (b : completion bool) : completion bool :=
  cbind a (fun x => if x then b else Normal false).

Notation "c1 '&&>' c2" := (and_then c1 c2) (at level 41, right associativity).

Module JS.

(** [v === undefined], [v === null], [v == null] *)
Definition is_undefined (v : jsval) : bool :=
  match v with JUndefined => true | _ => false end.

Definition is_null (v : jsval) : bool :=
  match v with JNull => true | _ => false end.

Definition loose_null (v : jsval) : bool := is_undefined v || is_null v.

(** [typeof v === 'object'] (true of [null] as well) *)
Definition typeof_object (v : jsval) : bool :=
  match v with
  | JNull | JArray _ | JObject _ => true
  | _ => false
  end.

(** The truthiness of a value, [ToBoolean]. *)
Definition to_boolean (v : jsval) : bool :=
  match v with
  | JUndefined | JNull => false
  | JBool b => b
  | JNumber n => negb (n =? 0)%Z
  | JString s => negb (String.eqb s "")
  | JArray _ | JObject _ => true
  end.

Definition digit_of (c : ascii) : option nat :=
  let n := nat_of_ascii c in
  if (48 <=? n)%nat && (n <=? 57)%nat then Some (n - 48)%nat else None.

Fixpoint digits_value (acc : nat) (s : string) : option nat :=
  match s with
  | EmptyString => Some acc
  | String c rest =>
      match digit_of c with
      | Some d => digits_value (10 * acc + d) rest
      | None => None
      end
  end.

(** A property name that is an array index: a canonical decimal numeral. *)
Definition array_index (name : string) : option nat :=
  match name with
  | EmptyString => None
  | String c rest =>
      if Ascii.eqb c "0"%char && negb (String.eqb rest "") then None
      else digits_value 0 name
  end.

Fixpoint assoc (name : string) (fields : list (string * jsval)) : option jsval :=
  match fields with
  | [] => None
  | (k, v) :: rest => if String.eqb k name then Some v else assoc name rest
  end.

(** The own properties of an object or array.  The properties inherited
    from [Object.prototype] and [Array.prototype] are left out: the one
    name the library looks up is ['value'], which is not among them. *)
Definition has_property (name : string) (v : jsval) : bool :=
  match v with
  | JObject fields => bool_decide (is_Some (assoc name fields))
  | JArray items =>
      match array_index name with
      | Some i => (i <? length items)%nat
      | None => String.eqb name "length"
      end
  | _ => false
  end.

(** [name in v]: a [TypeError] when [v] is not an object. *)
Definition js_in (name : string) (v : jsval) : completion bool :=
  match v with
  | JObject _ | JArray _ => Normal (has_property name v)
  | _ => Throw (TypeError "Cannot use 'in' operator")
  end.

(** [v[name]] for an object or array [v]. *)
Definition get (v : jsval) (name : string) : jsval :=
  match v with
  | JObject fields => default JUndefined (assoc name fields)
  | JArray items =>
      match array_index name with
      | Some i => default JUndefined (items !! i)
      | None =>
          if String.eqb name "length" then JNumber (Z.of_nat (length items))
          else JUndefined
      end
  | _ => JUndefined
  end.

End JS.

(** ** JSON *)

(** [JSON.stringify] and [JSON.parse] belong to the browser.  [stringify]
    gives no text for [undefined]; [parse] throws a [SyntaxError] on text
    that is not JSON. *)
Class JSON := {
  JSON_stringify : jsval -> option string;
  JSON_parse : string -> completion jsval;
}.

(** A value is JSON-serializable when it survives the trip through its
    JSON text. *)
Definition JSONSerializable `{JSON} (v : jsval) : Prop :=
  exists text, JSON_stringify v = Some text /\ JSON_parse text = Normal v.

(** A JSON implementation over [jsval], for running the backends on
    concrete values: integers for numbers, and the escapes of the quote,
    the backslash and the usual control characters in strings. *)
Module TextJSON.

Definition escape_char (c : ascii) : string :=
  if Ascii.eqb c "034"%char then String "\"%char (String c EmptyString)
  else if Ascii.eqb c "\"%char then String c (String c EmptyString)
  else if Ascii.eqb c "010"%char then String "\"%char "n"
  else if Ascii.eqb c "009"%char then String "\"%char "t"
  else if Ascii.eqb c "013"%char then String "\"%char "r"
  else String c EmptyString.

Fixpoint escape (s : string) : string :=
  match s with
  | EmptyString => EmptyString
  | String c rest => escape_char c ++ escape rest
  end.

Definition quote (s : string) : string :=
  String "034"%char (escape s ++ String "034"%char EmptyString).

(** The characters that may stand in a string literal, as they are or
    escaped. *)
Definition printable (c : ascii) : bool :=
  (32 <=? nat_of_ascii c)%nat || Ascii.eqb c "010"%char || Ascii.eqb c "009"%char
  || Ascii.eqb c "013"%char.

Fixpoint all_printable (s : string) : bool :=
  match s with
  | EmptyString => true
  | String c rest => printable c && all_printable rest
  end.

Fixpoint join (parts : list string) : string :=
  match parts with
  | [] => ""
  | [p] => p
  | p :: rest => p ++ "," ++ join rest
  end.

(** [JSON.stringify]: nothing for [undefined]; an [undefined] element of
    an array is written as [null], an [undefined] property is dropped. *)
Fixpoint stringify (v : jsval) : option string :=
  match v with
  | JUndefined => None
  | JNull => Some "null"
  | JBool b => Some (if b then "true" else "false")
  | JNumber n => Some (NilZero.string_of_int (Z.to_int n))
  | JString s => Some (quote s)
  | JArray items =>
      let texts :=
        (fix each (l : list jsval) : list string :=
           match l with
           | [] => []
           | x :: rest => default "null" (stringify x) :: each rest
           end) items in
      Some ("[" ++ join texts ++ "]")
  | JObject fields =>
      let texts :=
        (fix each (l : list (string * jsval)) : list string :=
           match l with
           | [] => []
           | (k, x) :: rest =>
               match stringify x with
               | Some t => (quote k ++ ":" ++ t) :: each rest
               | None => each rest
               end
           end) fields in
      Some ("{" ++ join texts ++ "}")
  end.

Definition is_ws (c : ascii) : bool :=
  Ascii.eqb c " "%char || Ascii.eqb c "010"%char || Ascii.eqb c "009"%char
  || Ascii.eqb c "013"%char.

Fixpoint skip_ws (s : string) : string :=
  match s with
  | String c rest => if is_ws c then skip_ws rest else s
  | EmptyString => s
  end.

(** The characters of a string literal after its opening quote. *)
Fixpoint parse_chars (s : string) : option (string * string) :=
  match s with
  | EmptyString => None
  | String c rest =>
      if Ascii.eqb c "034"%char then Some (EmptyString, rest)
      else if Ascii.eqb c "\"%char then
        match rest with
        | String e rest' =>
            let plain (x : ascii) :=
              match parse_chars rest' with
              | Some (t, r) => Some (String x t, r)
              | None => None
              end in
            if Ascii.eqb e "034"%char then plain e
            else if Ascii.eqb e "\"%char then plain e
            else if Ascii.eqb e "/"%char then plain e
            else if Ascii.eqb e "n"%char then plain "010"%char
            else if Ascii.eqb e "t"%char then plain "009"%char
            else if Ascii.eqb e "r"%char then plain "013"%char
            else None
        | EmptyString => None
        end
      else if (nat_of_ascii c <? 32)%nat then None
      else
        match parse_chars rest with
        | Some (t, r) => Some (String c t, r)
        | None => None
        end
  end.

Definition is_number_char (c : ascii) : bool :=
  Ascii.eqb c "-"%char || ((48 <=? nat_of_ascii c)%nat && (nat_of_ascii c <=? 57)%nat).

Fixpoint span_number (s : string) : string * string :=
  match s with
  | String c rest =>
      if is_number_char c
      then let '(n, r) := span_number rest in (String c n, r)
      else (EmptyString, s)
  | EmptyString => (EmptyString, EmptyString)
  end.

Definition parse_number (s : string) : option (jsval * string) :=
  let '(digits, rest) := span_number s in
  match NilZero.int_of_string digits with
  | Some i => Some (JNumber (Z.of_int i), rest)
  | None => None
  end.

Definition expect (word : string) (v : jsval) (s : string) : option (jsval * string) :=
  if String.prefix word s
  then Some (v, String.substring (String.length word)
                                 (String.length s - String.length word) s)
  else None.

Fixpoint parse_items (fuel : nat) (value : string -> option (jsval * string))
    (s : string) (acc : list jsval) : option (jsval * string) :=
  match fuel with
  | O => None
  | S fuel' =>
      match value s with
      | Some (v, r) =>
          match skip_ws r with
          | String c r' =>
              if Ascii.eqb c ","%char then parse_items fuel' value r' (acc ++ [v])
              else if Ascii.eqb c "]"%char then Some (JArray (acc ++ [v]), r')
              else None
          | EmptyString => None
          end
      | None => None
      end
  end.

Fixpoint parse_members (fuel : nat) (value : string -> option (jsval * string))
    (s : string) (acc : list (string * jsval)) : option (jsval * string) :=
  match fuel with
  | O => None
  | S fuel' =>
      match skip_ws s with
      | String q s1 =>
          if Ascii.eqb q "034"%char then
            match parse_chars s1 with
            | Some (k, s2) =>
                match skip_ws s2 with
                | String colon s3 =>
                    if Ascii.eqb colon ":"%char then
                      match value s3 with
                      | Some (v, r) =>
                          match skip_ws r with
                          | String c r' =>
                              if Ascii.eqb c ","%char
                              then parse_members fuel' value r' (acc ++ [(k, v)])
                              else if Ascii.eqb c "}"%char
                                   then Some (JObject (acc ++ [(k, v)]), r')
                                   else None
                          | EmptyString => None
                          end
                      | None => None
                      end
                    else None
                | EmptyString => None
                end
            | None => None
            end
          else None
      | EmptyString => None
      end
  end.

Fixpoint parse_value (fuel : nat) (s : string) : option (jsval * string) :=
  match fuel with
  | O => None
  | S fuel' =>
      match skip_ws s with
      | EmptyString => None
      | String c rest =>
          if Ascii.eqb c "n"%char then expect "null" JNull (String c rest)
          else if Ascii.eqb c "t"%char then expect "true" (JBool true) (String c rest)
          else if Ascii.eqb c "f"%char then expect "false" (JBool false) (String c rest)
          else if Ascii.eqb c "034"%char then
            match parse_chars rest with
            | Some (t, r) => Some (JString t, r)
            | None => None
            end
          else if Ascii.eqb c "["%char then
            match skip_ws rest with
            | String c' r' =>
                if Ascii.eqb c' "]"%char then Some (JArray [], r')
                else parse_items fuel' (parse_value fuel') rest []
            | EmptyString => None
            end
          else if Ascii.eqb c "{"%char then
            match skip_ws rest with
            | String c' r' =>
                if Ascii.eqb c' "}"%char then Some (JObject [], r')
                else parse_members fuel' (parse_value fuel') rest []
            | EmptyString => None
            end
          else parse_number (String c rest)
      end
  end.

(** [JSON.parse]: the whole text must be one JSON value. *)
Definition parse (text : string) : completion jsval :=
  match parse_value (S (String.length text)) text with
  | Some (v, rest) =>
      match skip_ws rest with
      | EmptyString => Normal v
      | _ => Throw (SyntaxError "Unexpected token in JSON")
      end
  | None => Throw (SyntaxError "Unexpected token in JSON")
  end.

Definition json : JSON := {| JSON_stringify := stringify; JSON_parse := parse |}.

End TextJSON.

(** ** Observables *)

Inductive IDBTransactionMode := readonly | readwrite.

(** The requests the library places on an object store. *)
Inductive IDBRequest : Type :=
| store_get (key : string)
| store_getKey (key : string)
| store_add (value : jsval) (key : string)
| store_put (value : jsval) (key : string)
| store_delete (key : string)
| store_clear
| store_count
| store_getAllKeys.

(** The Observables the backends return.  All of them emit at most one
    value and then complete, or fail.
    - [observableOf v] emits [v]; [observableThrow e] fails with [e];
    - [onDatabase mode body] is
      [this.transaction(mode).pipe(mergeMap((store) => body), first())]:
      it waits for the connection, opens a transaction and runs [body];
    - [onRequest request onsuccess onerror] inside a transaction is
      [race([success$, error$])] piped into the next step: the request's
      success event continues with [onsuccess request.result], its error
      event fails with [onerror request.error];
    - [onCursor onsuccess onerror] is the same for [store.openCursor()],
      whose request fires one success event per record and a last one
      with [null]: [onsuccess] receives the results of all of them, and
      gives nothing when the subscriber is never told anything. *)
Inductive Observable : Type :=
| observableOf (v : jsval)
| observableThrow (e : JSError)
| onDatabase (mode : IDBTransactionMode) (body : IDBProgram)
with IDBProgram : Type :=
| inner (o : Observable)
| onRequest (request : IDBRequest)
            (onsuccess : jsval -> IDBProgram)
            (onerror : JSError -> JSError)
| onCursor (onsuccess : list jsval -> option IDBProgram)
           (onerror : JSError -> JSError).

(** [map(callback)]: an exception of the callback becomes the failure of
    the Observable. *)
Definition map_callback (c : completion jsval) : IDBProgram :=
  match c with
  | Normal v => inner (observableOf v)
  | Throw e => inner (observableThrow e)
  end.

(** [source.pipe(mergeMap(project))] for a source with one value. *)
Fixpoint mergeMap (source : Observable) (project : jsval -> Observable) : Observable :=
  match source with
  | observableOf v => project v
  | observableThrow e => observableThrow e
  | onDatabase mode body => onDatabase mode (mergeMap_program body project)
  end
with mergeMap_program (body : IDBProgram) (project : jsval -> Observable) : IDBProgram :=
  match body with
  | inner o => inner (mergeMap o project)
  | onRequest request onsuccess onerror =>
      onRequest request (fun result => mergeMap_program (onsuccess result) project) onerror
  | onCursor onsuccess onerror =>
      onCursor
        (fun events =>
           match onsuccess events with
           | Some p => Some (mergeMap_program p project)
           | None => None
           end)
        onerror
  end.

(** What the caller of a method sees: one value and completion, or a
    failure, both through the Observable; or an exception thrown by the
    call itself. *)
Inductive Notification : Type :=
| next_complete (v : jsval)
| error (e : JSError)
| thrown (e : JSError).

(** The methods of the storage contract. *)
Inductive Operation : Type :=
| call_getItem (key : string)
| call_setItem (key : string) (data : jsval)
| call_removeItem (key : string)
| call_clear
| call_keys
| call_has (key : string)
| call_size.

(** What happens around a backend instance: a caller invokes a method and
    subscribes to the Observable it returns; the request of
    [indexedDB.open] fires its success or its error event; the engine
    serves one request. *)
Inductive Event : Type :=
| Call (op : Operation)
| OpenSuccess
| OpenError (e : JSError)
| Tick.

(** ** Web Storage *)

(** [window.localStorage]: a map from keys to text.  [setItem] turns its
    argument into a string, so a missing text is stored as ["undefined"]. *)
Module Storage.

Definition getItem (key : string) (s : gmap string string) : option string :=
  s !! key.

Definition to_DOMString (text : option string) : string :=
  match text with
  | Some t => t
  | None => "undefined"
  end.

Definition setItem (key : string) (text : option string) (s : gmap string string)
  : gmap string string :=
  <[key := to_DOMString text]> s.

Definition removeItem (key : string) (s : gmap string string) : gmap string string :=
  delete key s.

Definition clear (s : gmap string string) : gmap string string := ∅.

End Storage.

(** ** The localStorage backend *)

(** An instance of the class holds a reference to [window.localStorage]
    and nothing else.  The class declares no constructor parameter; the
    argument its callers pass is kept to tell instances apart. *)
Inductive LocalStorageDatabase : Type :=
| new_LocalStorageDatabase (prefix : option string).

Module LocalStorage.
Section Methods.
Context `{JSON}.
Implicit Types (key : string) (s : gmap string string).

Definition getItem (this : LocalStorageDatabase) key s : completion Observable :=
  let unparsedData := Storage.getItem key s in
  match unparsedData with
  | Some text =>
      try_catch
        (cbind (JSON_parse text) (fun parseddata => Normal (observableOf parseddata)))
        (fun _ => Normal (observableThrow (Error "Invalid data in localStorage.")))
  | None => Normal (observableOf JNull)
  end.

Definition setItem (this : LocalStorageDatabase) key (data : jsval) s
  : Observable * gmap string string :=
  (observableOf (JBool true), Storage.setItem key (JSON_stringify data) s).

Definition removeItem (this : LocalStorageDatabase) key s
  : Observable * gmap string string :=
  (observableOf (JBool true), Storage.removeItem key s).

Definition clear (this : LocalStorageDatabase) s : Observable * gmap string string :=
  (observableOf (JBool true), Storage.clear s).

(** Modelled from the spec: [keys], [has] and [size] of the fallback
    backend are not in the sources of this class.  The contract gives
    [keys()] as the complete set of current keys, [has(key)] as the
    existence check and [size] as the current entry count. *)
Definition keys (this : LocalStorageDatabase) s : Observable :=
  observableOf (JArray (JString <$> (map_to_list s).*1)).

Definition has (this : LocalStorageDatabase) key s : Observable :=
  observableOf (JBool (bool_decide (is_Some (s !! key)))).

Definition size (this : LocalStorageDatabase) s : Observable :=
  observableOf (JNumber (Z.of_nat (map_size s))).

(** A method called by name on an instance: the Observable it returns
    and what it leaves in [localStorage]. *)
Definition method (op : Operation) (this : LocalStorageDatabase) s
  : completion (Observable * gmap string string) :=
  match op with
  | call_getItem key => cbind (getItem this key s) (fun o => Normal (o, s))
  | call_setItem key data => Normal (setItem this key data s)
  | call_removeItem key => Normal (removeItem this key s)
  | call_clear => Normal (clear this s)
  | call_keys => Normal (keys this s, s)
  | call_has key => Normal (has this key s, s)
  | call_size => Normal (size this s, s)
  end.

End Methods.
End LocalStorage.

(** ** The browser: IndexedDB engine, localStorage, subscribers *)

(** A live transaction: the subscriber it works for, its mode, and the
    request it has pending with what follows the request's events. *)
Record IDBTransaction := {
  tx_subscriber : nat;
  tx_mode : IDBTransactionMode;
  tx_pending : IDBProgram;
}.

(** What the browser offers of IndexedDB:
    - [indexedDB_open]: whether [indexedDB.open] returns a request or throws;
    - [hasGetKey], [hasGetAllKeys]: whether object stores have the
      IndexedDB v2 methods (['getKey' in store], ['getAllKeys' in store]). *)
Class IDBFactory := {
  indexedDB_open : completion unit;
  hasGetKey : bool;
  hasGetAllKeys : bool;
}.

(** The state outside the backend instance.
    - [records]: the records of the object store;
    - [transactions]: the live transactions, oldest first;
    - [localStorage]: the content of [window.localStorage];
    - [notified]: what each subscriber has been told, latest first. *)
Record Browser := {
  records : gmap string jsval;
  transactions : list IDBTransaction;
  localStorage : gmap string string;
  notified : list (nat * Notification);
}.

Definition with_records (r : gmap string jsval) (w : Browser) : Browser :=
  {| records := r; transactions := transactions w;
     localStorage := localStorage w; notified := notified w |}.

Definition with_transactions (t : list IDBTransaction) (w : Browser) : Browser :=
  {| records := records w; transactions := t;
     localStorage := localStorage w; notified := notified w |}.

Definition with_localStorage (s : gmap string string) (w : Browser) : Browser :=
  {| records := records w; transactions := transactions w;
     localStorage := s; notified := notified w |}.

Definition notify (id : nat) (n : Notification) (w : Browser) : Browser :=
  {| records := records w; transactions := transactions w;
     localStorage := localStorage w; notified := (id, n) :: notified w |}.

(** What subscriber [id] has been told, if anything. *)
Fixpoint told (id : nat) (log : list (nat * Notification)) : option Notification :=
  match log with
  | [] => None
  | (i, n) :: rest =>
      match told id rest with
      | Some first => Some first
      | None => if Nat.eqb i id then Some n else None
      end
  end.

Definition outcome (id : nat) (w : Browser) : option Notification :=
  told id (notified w).

Module Engine.

Inductive IDBEvent : Type :=
| success (result : jsval)
| failure (error : JSError).

(** What a request does to the records, and the event it ends with.
    Values are stored as they are (the structured clone of a value of
    [jsval] is the value).  [add] fails on a key that has a record. *)
Definition perform (request : IDBRequest) (r : gmap string jsval)
  : gmap string jsval * IDBEvent :=
  match request with
  | store_get key => (r, success (default JUndefined (r !! key)))
  | store_getKey key =>
      (r, success (match r !! key with Some _ => JString key | None => JUndefined end))
  | store_add value key =>
      match r !! key with
      | Some _ =>
          (r, failure (DOMException "ConstraintError"
                         "Key already exists in the object store"))
      | None => (<[key := value]> r, success (JString key))
      end
  | store_put value key => (<[key := value]> r, success (JString key))
  | store_delete key => (delete key r, success JUndefined)
  | store_clear => (∅, success JUndefined)
  | store_count => (r, success (JNumber (Z.of_nat (map_size r))))
  | store_getAllKeys => (r, success (JArray (JString <$> (map_to_list r).*1)))
  end.

(** The results of the success events of a cursor over all records. *)
Definition cursor_events (r : gmap string jsval) : list jsval :=
  ((fun kv => JObject [("key", JString kv.1); ("value", kv.2)]) <$> map_to_list r)
    ++ [JNull].

(** Subscribing while the connection is there: a transaction is opened
    at once and joins the live ones as the youngest. *)
Fixpoint subscribe_connected (id : nat) (o : Observable) (w : Browser) : Browser :=
  match o with
  | observableOf v => notify id (next_complete v) w
  | observableThrow e => notify id (error e) w
  | onDatabase mode body => open_transaction id mode body w
  end
with open_transaction (id : nat) (mode : IDBTransactionMode) (body : IDBProgram)
       (w : Browser) : Browser :=
  match body with
  | inner o => subscribe_connected id o w
  | _ =>
      with_transactions
        (transactions w ++ [{| tx_subscriber := id; tx_mode := mode; tx_pending := body |}]) w
  end.

(** After an event of the oldest transaction (already taken off the
    list): a further request keeps the transaction alive and oldest,
    anything else ends it. *)
Definition continue (id : nat) (mode : IDBTransactionMode) (p : IDBProgram)
    (w : Browser) : Browser :=
  match p with
  | inner o => subscribe_connected id o w
  | _ =>
      with_transactions
        ({| tx_subscriber := id; tx_mode := mode; tx_pending := p |} :: transactions w) w
  end.

(** The engine serves the pending request of the oldest transaction and
    fires its event.  Transactions over the one object store run one
    after the other, in the order they were created: a transaction that
    writes waits for the older ones and holds back the younger ones, and
    read-only transactions that an engine runs side by side see what
    they see one after the other.  A request placed in the handler of an
    event belongs to the same transaction and is served before the
    transaction ends. *)
Definition tick (w : Browser) : Browser :=
  match transactions w with
  | [] => w
  | tx :: rest =>
      let id := tx_subscriber tx in
      match tx_pending tx with
      | onRequest request onsuccess onerror =>
          match perform request (records w) with
          | (r, success result) =>
              continue id (tx_mode tx) (onsuccess result)
                (with_transactions rest (with_records r w))
          | (r, failure e) =>
              notify id (error (onerror e)) (with_transactions rest (with_records r w))
          end
      | onCursor onsuccess onerror =>
          match onsuccess (cursor_events (records w)) with
          | Some p => continue id (tx_mode tx) p (with_transactions rest w)
          | None => with_transactions rest w
          end
      | inner o => subscribe_connected id o (with_transactions rest w)
      end
  end.

End Engine.

(** ** The connection subject *)

(** [ReplaySubject<IDBDatabase>]: nothing emitted yet, with the
    subscribers waiting for it; or the connection, which every later
    subscriber gets at once; or a failure, likewise. *)
Inductive ReplaySubject : Type :=
| subject_empty (observers : list IDBTransaction)
| subject_value
| subject_error (e : JSError).

Module Subject.

(** What the subscriber of an Observable is told on subscribing, for the
    Observables that need no transaction. *)
Definition told_at_once (o : Observable) : option Notification :=
  match o with
  | observableOf v => Some (next_complete v)
  | observableThrow e => Some (error e)
  | onDatabase _ _ => None
  end.

(** [observable.subscribe(...)] for an Observable of a backend whose
    connection subject is [database]. *)
Definition subscribe (id : nat) (o : Observable) (database : ReplaySubject) (w : Browser)
  : ReplaySubject * Browser :=
  match o with
  | onDatabase mode body =>
      match database with
      | subject_empty observers =>
          (subject_empty
             (observers ++ [{| tx_subscriber := id; tx_mode := mode; tx_pending := body |}]),
           w)
      | subject_value => (database, Engine.open_transaction id mode body w)
      | subject_error e => (database, notify id (error e) w)
      end
  | _ => (database, Engine.subscribe_connected id o w)
  end.

(** [database.next(request.result)]: the waiting subscribers get the
    connection in the order they subscribed. *)
Definition next (database : ReplaySubject) (w : Browser) : ReplaySubject * Browser :=
  match database with
  | subject_empty observers =>
      (subject_value,
       foldl (fun w' o => Engine.open_transaction (tx_subscriber o) (tx_mode o) (tx_pending o) w')
             w observers)
  | _ => (database, w)
  end.

(** [database.error(e)]: the waiting subscribers all fail with [e]. *)
Definition fail (e : JSError) (database : ReplaySubject) (w : Browser)
  : ReplaySubject * Browser :=
  match database with
  | subject_empty observers =>
      (subject_error e, foldl (fun w' o => notify (tx_subscriber o) (error e) w') w observers)
  | _ => (database, w)
  end.

End Subject.

(** ** The IndexedDB backend, with its fallback *)

Module IndexedDB.
Section Backend.
Context `{JSON} `{IDBFactory}.

Record IndexedDBDatabase := {
  dbName : string;
  storeName : string;
  database : ReplaySubject;
  fallback : option LocalStorageDatabase;
}.

Definition dataPath : string := "value".

Definition setFallback (prefix : option string) (this : IndexedDBDatabase)
  : IndexedDBDatabase :=
  {| dbName := dbName this; storeName := storeName this; database := database this;
     fallback := Some (new_LocalStorageDatabase prefix) |}.

(** [this.transaction(mode)], piped into what is done with the store. *)
Abbreviation transaction := onDatabase (only parsing).

(** [errorEvent(request)] fails with [request.error]. *)
Abbreviation errorEvent := (fun e : JSError => e) (only parsing).

(** [race([success$, error$])] on a request, where the success event
    goes on with [next]. *)
Definition requestEvents (request : IDBRequest) (next : jsval -> IDBProgram)
  : IDBProgram :=
  onRequest request next errorEvent.

Definition requestEventsAndMapTo (request : IDBRequest)
    (mapCallback : jsval -> completion jsval) : IDBProgram :=
  requestEvents request (fun result => map_callback (mapCallback result)).

Definition getKeyRequest (key : string) : IDBRequest :=
  if hasGetKey then store_getKey key else store_get key.

(** The callback of [getKeysFromCursor]: each cursor adds its key and
    continues, the [null] after the last record lets the keys through. *)
Fixpoint getKeysFromCursor (keys : list jsval) (events : list jsval)
  : option IDBProgram :=
  match events with
  | [] => None
  | cursor :: rest =>
      if JS.to_boolean cursor
      then getKeysFromCursor (keys ++ [JS.get cursor "key"]) rest
      else Some (inner (observableOf (JArray keys)))
  end.

(** The callback of [getItem] on [request.result]. *)
Definition getItem_mapCallback (result : jsval) : completion jsval :=
  cbind
    (Normal (negb (JS.is_undefined result))
     &&> Normal (negb (JS.is_null result))
     &&> Normal (JS.typeof_object result)
     &&> JS.js_in dataPath result
     &&> Normal (negb (JS.is_undefined (JS.get result dataPath)))
     &&> Normal (negb (JS.is_null (JS.get result dataPath))))
    (fun wrapped =>
       if wrapped then Normal (JS.get result dataPath)
       else if negb (JS.is_undefined result) && negb (JS.is_null result)
            then Normal result
            else Normal JNull).

Definition getItem (key : string) (this : IndexedDBDatabase) (w : Browser)
  : completion (Observable * Browser) :=
  match fallback this with
  | Some fb =>
      cbind (LocalStorage.getItem fb key (localStorage w)) (fun o => Normal (o, w))
  | None =>
      Normal
        (transaction readonly (requestEventsAndMapTo (store_get key) getItem_mapCallback),
         w)
  end.

Definition setItem (key : string) (data : jsval) (this : IndexedDBDatabase) (w : Browser)
  : completion (Observable * Browser) :=
  match fallback this with
  | Some fb =>
      let '(o, s) := LocalStorage.setItem fb key data (localStorage w) in
      Normal (o, with_localStorage s w)
  | None =>
      if JS.is_undefined data || JS.is_null data then Normal (observableOf (JBool true), w)
      else
        Normal
          (transaction readwrite
             (requestEvents (getKeyRequest key)
                (fun existingEntry =>
                   requestEventsAndMapTo
                     (if JS.is_undefined existingEntry
                      then store_add (JObject [(dataPath, data)]) key
                      else store_put (JObject [(dataPath, data)]) key)
                     (fun _ => Normal (JBool true)))),
           w)
  end.

Definition removeItem (key : string) (this : IndexedDBDatabase) (w : Browser)
  : completion (Observable * Browser) :=
  match fallback this with
  | Some fb =>
      let '(o, s) := LocalStorage.removeItem fb key (localStorage w) in
      Normal (o, with_localStorage s w)
  | None =>
      Normal
        (transaction readwrite
           (requestEventsAndMapTo (store_delete key) (fun _ => Normal (JBool true))),
         w)
  end.

Definition clear (this : IndexedDBDatabase) (w : Browser)
  : completion (Observable * Browser) :=
  match fallback this with
  | Some fb =>
      let '(o, s) := LocalStorage.clear fb (localStorage w) in
      Normal (o, with_localStorage s w)
  | None =>
      Normal
        (transaction readwrite
           (requestEventsAndMapTo store_clear (fun _ => Normal (JBool true))),
         w)
  end.

Definition keys (this : IndexedDBDatabase) (w : Browser)
  : completion (Observable * Browser) :=
  match fallback this with
  | Some fb => Normal (LocalStorage.keys fb (localStorage w), w)
  | None =>
      Normal
        (transaction readonly
           (if hasGetAllKeys
            then requestEventsAndMapTo store_getAllKeys (fun result => Normal result)
            else onCursor (getKeysFromCursor []) errorEvent),
         w)
  end.

Definition has (key : string) (this : IndexedDBDatabase) (w : Browser)
  : completion (Observable * Browser) :=
  match fallback this with
  | Some fb => Normal (LocalStorage.has fb key (localStorage w), w)
  | None =>
      Normal
        (transaction readonly
           (requestEventsAndMapTo (getKeyRequest key)
              (fun result => Normal (JBool (negb (JS.is_undefined result))))),
         w)
  end.

Definition size (this : IndexedDBDatabase) (w : Browser)
  : completion (Observable * Browser) :=
  match fallback this with
  | Some fb => Normal (LocalStorage.size fb (localStorage w), w)
  | None =>
      Normal
        (transaction readonly
           (requestEventsAndMapTo store_count (fun result => Normal result)),
         w)
  end.

Definition method (op : Operation) : IndexedDBDatabase -> Browser ->
                                     completion (Observable * Browser) :=
  match op with
  | call_getItem key => getItem key
  | call_setItem key data => setItem key data
  | call_removeItem key => removeItem key
  | call_clear => clear
  | call_keys => keys
  | call_has key => has key
  | call_size => size
  end.

(** An instance in its surroundings.  [given_prefix] is what the constructor
    was given, which the handlers of [connect] still hold; [opening]
    says that [connect] is subscribed to the events of the open request;
    [subscribers] counts the subscriptions made so far and names the
    next one. *)
Record State := {
  this : IndexedDBDatabase;
  given_prefix : option string;
  opening : bool;
  browser : Browser;
  subscribers : nat;
}.

(** [connect]: a throwing [indexedDB.open] is caught and answered with
    the fallback; otherwise the instance waits for the first event of
    the request.  The object store is taken to be there: [createStore]
    sees to it on the first connection. *)
Definition connect (pre : option string) (self : IndexedDBDatabase)
  : IndexedDBDatabase * bool :=
  match indexedDB_open with
  | Throw _ => (setFallback pre self, false)
  | Normal _ => (self, true)
  end.

Definition constructor (pre : option string) (name store : string) (w : Browser)
  : State :=
  let self :=
    {| dbName := match pre with
                 | Some p => if String.eqb p "" then name else p ++ "_" ++ name
                 | None => name
                 end;
       storeName := store;
       database := subject_empty [];
       fallback := None |} in
  let '(self', listening) := connect pre self in
  {| this := self'; given_prefix := pre; opening := listening; browser := w;
     subscribers := 0 |}.

Definition with_browser (w : Browser) (st : State) : State :=
  {| this := this st; given_prefix := given_prefix st; opening := opening st; browser := w;
     subscribers := subscribers st |}.

Definition with_database (d : ReplaySubject) (self : IndexedDBDatabase)
  : IndexedDBDatabase :=
  {| dbName := dbName self; storeName := storeName self; database := d;
     fallback := fallback self |}.

Definition step (st : State) (ev : Event) : State :=
  match ev with
  | Call op =>
      let id := subscribers st in
      match method op (this st) (browser st) with
      | Normal (o, w) =>
          let '(d, w') := Subject.subscribe id o (database (this st)) w in
          {| this := with_database d (this st); given_prefix := given_prefix st;
             opening := opening st; browser := w'; subscribers := S id |}
      | Throw e =>
          {| this := this st; given_prefix := given_prefix st; opening := opening st;
             browser := notify id (thrown e) (browser st); subscribers := S id |}
      end
  | OpenSuccess =>
      if opening st then
        let '(d, w) := Subject.next (database (this st)) (browser st) in
        {| this := with_database d (this st); given_prefix := given_prefix st;
           opening := false; browser := w; subscribers := subscribers st |}
      else st
  | OpenError _ =>
      if opening st then
        {| this := setFallback (given_prefix st) (this st); given_prefix := given_prefix st;
           opening := false; browser := browser st; subscribers := subscribers st |}
      else st
  | Tick => with_browser (Engine.tick (browser st)) st
  end.

Definition run (st : State) (events : list Event) : State := foldl step st events.

(** The instance works on the database: it is connected and has no
    fallback. *)
Definition primary (st : State) : Prop :=
  fallback (this st) = None /\ database (this st) = subject_value.

(** The states an instance can be in: what the constructor gives and
    what events make of it. *)
Definition reachable (st : State) : Prop :=
  exists pre name store w events, st = run (constructor pre name store w) events.

(** The two ways a connection fails: [indexedDB.open] throws in the
    constructor, or the open request fires its error event. *)
Inductive connection_failed : State -> Prop :=
| open_threw pre name store w e :
    indexedDB_open = Throw e ->
    connection_failed (constructor pre name store w)
| open_failed st e :
    opening st = true ->
    connection_failed (step st (OpenError e)).

(** The calls that go to the database when there is no fallback: all
    but [setItem] of [null] or [undefined], which is answered at once. *)
Definition transactional (op : Operation) : bool :=
  match op with
  | call_setItem _ data => negb (JS.is_undefined data || JS.is_null data)
  | _ => true
  end.

(** Subscriber [id] is never told anything, whatever happens next. *)
Definition never_told (id : nat) (st : State) : Prop :=
  forall events, outcome id (browser (run st events)) = None.

(** The instance has never been connected and is not waiting for the
    open request any more. *)
Definition disconnected (st : State) : Prop :=
  opening st = false /\ exists observers, database (this st) = subject_empty observers.

(** What holds of the connection of every instance: with a fallback the
    instance is disconnected; while the open request is awaited nothing
    has been emitted. *)
Definition coherent (st : State) : Prop :=
  match fallback (this st) with
  | Some _ => disconnected st
  | None => opening st = true -> exists observers, database (this st) = subject_empty observers
  end.

(** What a call comes to when the method is the one of the fallback. *)
Definition delegated (op : Operation) (fb : LocalStorageDatabase) (w : Browser)
  : completion (Observable * Browser) :=
  cbind (LocalStorage.method op fb (localStorage w))
        (fun '(o, s) => Normal (o, with_localStorage s w)).

End Backend.
End IndexedDB.

(** ** The IndexedDB backend, earlier revision *)

(** The revision of the class without fallback, [keys], [has] and [size]:
    a failed connection is passed on to every caller. *)
Module IndexedDBEarlier.
Section Backend.
Context `{IDBFactory}.

Record IndexedDBDatabase := {
  dbName : string;
  database : ReplaySubject;
}.

(** [this.transaction(mode)], piped into what is done with the store. *)
Abbreviation transaction := onDatabase (only parsing).

Definition objectStoreName : string := "localStorage".
Definition dataPath : string := "value".

(** [toErrorObservable(request, error)] *)
Definition toErrorObservable (origin : string) (e : JSError) : JSError :=
  Error ("IndexedDB " ++ origin ++ " issue : " ++ message_of e ++ ".").

(** [toSuccessObservable(request)] raced with the error of the request. *)
Definition toSuccessObservable (request : IDBRequest) (origin : string) : IDBProgram :=
  onRequest request (fun _ => inner (observableOf (JBool true))) (toErrorObservable origin).

(** [(result) => result && (this.dataPath in result) ? result[this.dataPath] : null] *)
Definition getItem_callback (result : jsval) : completion jsval :=
  cbind
    (Normal (JS.to_boolean result) &&> JS.js_in dataPath result)
    (fun found => if found then Normal (JS.get result dataPath) else Normal JNull).

Definition getItem (key : string) : Observable :=
  transaction readonly
    (onRequest (store_get key)
       (fun result => map_callback (getItem_callback result))
       (toErrorObservable "getter")).

Definition setItem (key : string) (data : jsval) : Observable :=
  if JS.loose_null data then observableOf (JBool true)
  else
    transaction readwrite
      (onRequest (if hasGetKey then store_getKey key else store_get key)
         (fun existingKeyOrValue =>
            toSuccessObservable
              (if JS.is_undefined existingKeyOrValue
               then store_add (JObject [(dataPath, data)]) key
               else store_put (JObject [(dataPath, data)]) key)
              "setter")
         (toErrorObservable "setter")).

Definition removeItem (key : string) : Observable :=
  mergeMap (getItem key)
    (fun data =>
       if negb (JS.loose_null data)
       then transaction readwrite (toSuccessObservable (store_delete key) "remover")
       else observableOf (JBool true)).

Definition clear : Observable :=
  transaction readwrite (toSuccessObservable store_clear "clearer").

(** The class of this revision has no [keys], [has] or [size]: calling
    one of them is a [TypeError]. *)
Definition method (op : Operation) : completion Observable :=
  match op with
  | call_getItem key => Normal (getItem key)
  | call_setItem key data => Normal (setItem key data)
  | call_removeItem key => Normal (removeItem key)
  | call_clear => Normal clear
  | call_keys | call_has _ | call_size => Throw (TypeError "not a function")
  end.

Record State := {
  this : IndexedDBDatabase;
  opening : bool;
  browser : Browser;
  subscribers : nat;
}.

(** The constructor calls [connect], where [indexedDB.open] is not
    guarded: when it throws, so does the constructor. *)
Definition constructor (pre : option string) (w : Browser) : completion State :=
  cbind indexedDB_open
    (fun _ =>
       Normal
         {| this :=
              {| dbName := match pre with
                           | Some p => if String.eqb p "" then "ngStorage"
                                       else p ++ "_" ++ "ngStorage"
                           | None => "ngStorage"
                           end;
                 database := subject_empty [] |};
            opening := true; browser := w; subscribers := 0 |}).

Definition with_database (d : ReplaySubject) (self : IndexedDBDatabase)
  : IndexedDBDatabase :=
  {| dbName := dbName self; database := d |}.

Definition step (st : State) (ev : Event) : State :=
  match ev with
  | Call op =>
      let id := subscribers st in
      match method op with
      | Normal o =>
          let '(d, w) := Subject.subscribe id o (database (this st)) (browser st) in
          {| this := with_database d (this st); opening := opening st;
             browser := w; subscribers := S id |}
      | Throw e =>
          {| this := this st; opening := opening st;
             browser := notify id (thrown e) (browser st); subscribers := S id |}
      end
  | OpenSuccess =>
      if opening st then
        let '(d, w) := Subject.next (database (this st)) (browser st) in
        {| this := with_database d (this st); opening := false;
           browser := w; subscribers := subscribers st |}
      else st
  | OpenError e =>
      if opening st then
        let '(d, w) :=
          Subject.fail (toErrorObservable "connection" e) (database (this st)) (browser st) in
        {| this := with_database d (this st); opening := false;
           browser := w; subscribers := subscribers st |}
      else st
  | Tick =>
      {| this := this st; opening := opening st;
         browser := Engine.tick (browser st); subscribers := subscribers st |}
  end.

Definition run (st : State) (events : list Event) : State := foldl step st events.

Definition connected (st : State) : Prop := database (this st) = subject_value.

End Backend.
End IndexedDBEarlier.

(** ** The service in front of a backend *)

(** The JSON schema validator, called with a value and a schema: it
    answers whether the value fits, or throws on a schema it cannot use. *)
Class JSONValidator := {
  validate : jsval -> jsval -> completion bool;
}.

Module Service.
Section Facade.
Context `{JSONValidator}.

(** Modelled from the spec: the service class ([lib.service.ts]) is not
    among the sources, only its tests are.  [getItem(key, options)]
    delegates to the backend; when [options.schema] is supplied and the
    value is not the absence marker, the value goes through the
    validator: a failed validation fails with the fixed message, a
    schema the validator rejects fails with what the validator throws. *)
Definition validated (schema : option jsval) (data : jsval) : Observable :=
  match schema with
  | Some sch =>
      if negb (JS.is_null data) then
        match validate data sch with
        | Throw e => observableThrow e
        | Normal false => observableThrow (Error "JSON invalid")
        | Normal true => observableOf data
        end
      else observableOf data
  | None => observableOf data
  end.

Definition getItem (backend_getItem : Observable) (schema : option jsval) : Observable :=
  mergeMap backend_getItem (validated schema).

End Facade.
End Service.

(** ** Transactions taken one at a time *)

Module Serial.

(** A program that stays within its transaction: it opens no other. *)
Inductive in_place : IDBProgram -> Prop :=
| in_place_of v : in_place (inner (observableOf v))
| in_place_throw e : in_place (inner (observableThrow e))
| in_place_request request onsuccess onerror :
    (forall result, in_place (onsuccess result)) ->
    in_place (onRequest request onsuccess onerror)
| in_place_cursor onsuccess onerror :
    (forall events p, onsuccess events = Some p -> in_place p) ->
    in_place (onCursor onsuccess onerror).

(** A transaction that starts with a request. *)
Definition requesting (p : IDBProgram) : bool :=
  match p with
  | inner _ => false
  | _ => true
  end.

(** A whole transaction at once: its requests served one after the
    other until the subscriber is told. *)
Fixpoint complete (id : nat) (p : IDBProgram) (w : Browser) : Browser :=
  match p with
  | inner o => Engine.subscribe_connected id o w
  | onRequest request onsuccess onerror =>
      match Engine.perform request (records w) with
      | (r, Engine.success result) => complete id (onsuccess result) (with_records r w)
      | (r, Engine.failure e) => notify id (error (onerror e)) (with_records r w)
      end
  | onCursor onsuccess onerror =>
      match onsuccess (Engine.cursor_events (records w)) with
      | Some p' => complete id p' w
      | None => w
      end
  end.

(** The number of requests the transaction places. *)
Fixpoint requests (p : IDBProgram) (r : gmap string jsval) : nat :=
  match p with
  | inner _ => 0
  | onRequest request onsuccess onerror =>
      match Engine.perform request r with
      | (r', Engine.success result) => S (requests (onsuccess result) r')
      | (_, Engine.failure _) => 1
      end
  | onCursor onsuccess onerror =>
      match onsuccess (Engine.cursor_events r) with
      | Some p' => S (requests p' r)
      | None => 1
      end
  end.

Definition complete_tx (w : Browser) (tx : IDBTransaction) : Browser :=
  complete (tx_subscriber tx) (tx_pending tx) w.

(** The live transactions completed in their order. *)
Definition drain (w : Browser) : Browser :=
  foldl complete_tx (with_transactions [] w) (transactions w).

(** The ticks that takes. *)
Fixpoint work_of (txs : list IDBTransaction) (w : Browser) : nat :=
  match txs with
  | [] => 0
  | tx :: rest =>
      Nat.max 1 (requests (tx_pending tx) (records w)) + work_of rest (complete_tx w tx)
  end.

Definition work (w : Browser) : nat :=
  work_of (transactions w) (with_transactions [] w).

Definition ticks (n : nat) (w : Browser) : Browser := Nat.iter n Engine.tick w.

Definition queue_in_place (w : Browser) : Prop :=
  Forall (fun tx => in_place (tx_pending tx)) (transactions w).

(** Nothing is going on in the engine. *)
Definition idle (w : Browser) : Prop := transactions w = [].

End Serial.

(** The lookup [setItem] makes before it writes sees a record under
    [key] when there is one: [getKey] sees every record, the value read
    in its place misses a record that holds [undefined]. *)
Definition lookup_sees `{IDBFactory} (key : string) (r : gmap string jsval) : Prop :=
  hasGetKey = true \/ r !! key <> Some JUndefined.

(** The records the library itself writes: the value in the field
    ['value'] of an object. *)
Definition written_by_library (r : gmap string jsval) : Prop :=
  forall key record, r !! key = Some record -> exists data, record = JObject [("value", data)].

(** ** Browsers to run the backends in *)

Definition modern_browser : IDBFactory :=
  {| indexedDB_open := Normal tt; hasGetKey := true; hasGetAllKeys := true |}.

(** IndexedDB v1: no [getKey], no [getAllKeys]. *)
Definition older_browser : IDBFactory :=
  {| indexedDB_open := Normal tt; hasGetKey := false; hasGetAllKeys := false |}.

(** [indexedDB.open] throws (a cross-origin iframe in Safari). *)
Definition blocked_browser : IDBFactory :=
  {| indexedDB_open := Throw (DOMException "SecurityError" "The operation is insecure.");
     hasGetKey := true; hasGetAllKeys := true |}.

Definition fresh : Browser :=
  {| records := ∅; transactions := []; localStorage := ∅; notified := [] |}.

(** A browser whose object store holds one record. *)
Definition holding (key : string) (record : jsval) : Browser :=
  {| records := {[key := record]}; transactions := []; localStorage := ∅;
     notified := [] |}.

(** A validator that knows one keyword of JSON schema, [required]: the
    value must have the properties named there.  A schema without the
    keyword is one it cannot use. *)
Definition required_validator : JSONValidator :=
  {| validate v schema :=
       match JS.get schema "required" with
       | JArray names =>
           Normal
             (forallb
                (fun name =>
                   match name with
                   | JString p => JS.has_property p v
                   | _ => false
                   end)
                names)
       | _ => Throw (Error "Invalid schema")
       end |}.

(** * Properties *)

(** ** JSON texts *)

Module TextJSONFacts.
Import TextJSON.

Lemma append_assoc (a b c : string) : ((a ++ b) ++ c = a ++ (b ++ c))%string.
Proof.
  induction a as [|x a IH]; [reflexivity|].
  change (String x ((a ++ b) ++ c) = String x (a ++ (b ++ c)))%string.
  by rewrite IH.
Qed.

Lemma append_cons (x : ascii) (a b : string) :
  (String x a ++ b = String x (a ++ b))%string.
Proof. reflexivity. Qed.

Lemma append_nil (b : string) : ("" ++ b = b)%string.
Proof. reflexivity. Qed.

Lemma parse_chars_escape s rest :
  all_printable s = true ->
  parse_chars (escape s ++ String "034"%char rest) = Some (s, rest).
Proof.
  induction s as [|c s IH]; intros Hs; [reflexivity|].
  simpl in Hs. apply andb_true_iff in Hs as [Hc Hs]. specialize (IH Hs).
  cbn [escape]. rewrite append_assoc. unfold escape_char.
  destruct (Ascii.eqb_spec c "034"%char) as [->|Hq];
    [rewrite !append_cons, append_nil; simpl; by rewrite IH|].
  destruct (Ascii.eqb_spec c "\"%char) as [->|Hb];
    [rewrite !append_cons, append_nil; simpl; by rewrite IH|].
  destruct (Ascii.eqb_spec c "010"%char) as [->|Hn];
    [rewrite !append_cons, append_nil; simpl; by rewrite IH|].
  destruct (Ascii.eqb_spec c "009"%char) as [->|Ht];
    [rewrite !append_cons, append_nil; simpl; by rewrite IH|].
  destruct (Ascii.eqb_spec c "013"%char) as [->|Hr];
    [rewrite !append_cons, append_nil; simpl; by rewrite IH|].
  rewrite append_cons, append_nil. cbn [parse_chars].
  destruct (Ascii.eqb_spec c "034"%char); [done|].
  destruct (Ascii.eqb_spec c "\"%char); [done|].
  unfold printable in Hc.
  destruct (Ascii.eqb_spec c "010"%char); [done|].
  destruct (Ascii.eqb_spec c "009"%char); [done|].
  destruct (Ascii.eqb_spec c "013"%char); [done|].
  rewrite !orb_false_r in Hc. apply Nat.leb_le in Hc.
  destruct (Nat.ltb_spec (nat_of_ascii c) 32); [lia|]. by rewrite IH.
Qed.

(** Every string of printable characters is JSON-serializable. *)
Lemma string_serializable s :
  all_printable s = true -> @JSONSerializable json (JString s).
Proof.
  intros Hs. exists (quote s). split; [reflexivity|].
  unfold JSON_parse, json, parse, quote.
  change (parse_value (S ?n) (String "034"%char ?t))
    with (match parse_chars t with
          | Some (x, r) => Some (JString x, r)
          | None => None
          end).
  by rewrite parse_chars_escape.
Qed.

Lemma bool_serializable b : @JSONSerializable json (JBool b).
Proof. destruct b; eexists; split; reflexivity. Qed.

End TextJSONFacts.

(** ** The records of the library *)

Module RecordFacts.
Section Facts.
Context `{IDBFactory}.

(** The lookup before a write sees every record the library wrote. *)
Lemma written_by_library_seen key r :
  written_by_library r -> lookup_sees key r.
Proof.
  intros Hr. right. intros Hk. by destruct (Hr _ _ Hk).
Qed.

(** A request leaves the records in the shape the library writes, when
    what it adds or puts has that shape. *)
Lemma perform_written_by_library request r :
  written_by_library r ->
  (forall value key,
     request = store_add value key \/ request = store_put value key ->
     exists data, value = JObject [("value", data)]) ->
  written_by_library (Engine.perform request r).1.
Proof.
  intros Hr Hv. destruct request as [k|k|v k|v k|k| | |]; simpl; try exact Hr.
  - destruct (r !! k) eqn:Hk; [exact Hr|]. simpl.
    intros key record. rewrite lookup_insert. case_decide; [|apply Hr].
    intros [= <-]. eauto.
  - intros key record. rewrite lookup_insert. case_decide; [|apply Hr].
    intros [= <-]. eauto.
  - intros key record. rewrite lookup_delete. case_decide; [done|apply Hr].
  - intros key record. by rewrite lookup_empty.
Qed.

End Facts.
End RecordFacts.

(** ** The engine serves transactions in their order *)

Module SerialFacts.
Import Serial.

Lemma with_transactions_id (w : Browser) :
  with_transactions (transactions w) w = w.
Proof. by destruct w. Qed.

Lemma with_transactions_twice a b (w : Browser) :
  with_transactions a (with_transactions b w) = with_transactions a w.
Proof. reflexivity. Qed.

Lemma inner_in_place o :
  in_place (inner o) ->
  forall id w, exists n, Engine.subscribe_connected id o w = notify id n w.
Proof.
  intros Hp id w. inversion Hp; subst; simpl; eexists; reflexivity.
Qed.

Lemma requesting_requests p r :
  requesting p = true -> 1 <= requests p r.
Proof.
  destruct p as [o|request k onerr|k onerr]; simpl; [done| |].
  - destruct (Engine.perform request r) as [r' [x|e]]; lia.
  - destruct (k (Engine.cursor_events r)); lia.
Qed.

(** After an event the oldest transaction goes on, or is gone; either
    way what remains to be done is what remained of it. *)
Lemma continue_drain id mode p w rest :
  in_place p -> transactions w = rest ->
  drain (Engine.continue id mode p w)
  = foldl complete_tx (complete id p (with_transactions [] w)) rest.
Proof.
  intros Hp <-. destruct p as [o|request k onerr|k onerr]; try done.
  inversion Hp; subst; reflexivity.
Qed.

Lemma tick_drain w :
  queue_in_place w -> drain (Engine.tick w) = drain w.
Proof.
  unfold queue_in_place, Engine.tick. intros Hq.
  destruct (transactions w) as [|tx rest] eqn:Hw; [done|].
  apply Forall_cons in Hq as [Htx _].
  unfold drain at 2. rewrite Hw. simpl. unfold complete_tx at 2.
  destruct (tx_pending tx) as [o|request k onerr|k onerr] eqn:Hp.
  - inversion Htx; subst; reflexivity.
  - inversion Htx; subst. simpl.
    destruct (Engine.perform request (records w)) as [r [x|e]]; [|done].
    by rewrite continue_drain with (rest := rest).
  - inversion Htx as [| | |? ? Hk]; subst. simpl.
    destruct (k (Engine.cursor_events (records w))) as [p|] eqn:Hev; [|done].
    rewrite continue_drain with (rest := rest); eauto.
Qed.

Lemma continue_work id mode p w rest :
  in_place p -> transactions w = rest ->
  work (Engine.continue id mode p w)
  = requests p (records w) + work_of rest (complete id p (with_transactions [] w)).
Proof.
  intros Hp <-. destruct p as [o|request k onerr|k onerr].
  - inversion Hp; subst; done.
  - unfold work. simpl. unfold complete_tx. simpl.
    rewrite !with_transactions_twice.
    destruct (Engine.perform request (records w)) as [r [x|e]]; lia.
  - unfold work. simpl. unfold complete_tx. simpl.
    rewrite !with_transactions_twice.
    destruct (k (Engine.cursor_events (records w))); lia.
Qed.

Lemma tick_work w :
  queue_in_place w -> transactions w <> [] -> S (work (Engine.tick w)) = work w.
Proof.
  unfold queue_in_place, Engine.tick. intros Hq Hne.
  destruct (transactions w) as [|tx rest] eqn:Hw; [done|].
  apply Forall_cons in Hq as [Htx _].
  change (work w) with (work_of (transactions w) (with_transactions [] w)).
  rewrite Hw. simpl. unfold complete_tx at 1.
  destruct (tx_pending tx) as [o|request k onerr|k onerr] eqn:Hp.
  - inversion Htx; subst; done.
  - inversion Htx; subst. simpl.
    destruct (Engine.perform request (records w)) as [r [x|e]]; [|done].
    rewrite continue_work with (rest := rest); [reflexivity|done..].
  - inversion Htx as [| | |? ? Hk]; subst. simpl.
    destruct (k (Engine.cursor_events (records w))) as [p|] eqn:Hev; [|done].
    rewrite continue_work with (rest := rest); [reflexivity|eauto|done].
Qed.

Lemma continue_in_place id mode p w :
  in_place p -> queue_in_place w -> queue_in_place (Engine.continue id mode p w).
Proof.
  intros Hp Hq. destruct p; [inversion Hp; subst; exact Hq|..];
    apply Forall_cons; done.
Qed.

Lemma tick_in_place w :
  queue_in_place w -> queue_in_place (Engine.tick w).
Proof.
  unfold Engine.tick. intros Hq.
  pose proof Hq as Hq'. unfold queue_in_place in Hq'.
  destruct (transactions w) as [|tx rest] eqn:Hw; [done|].
  apply Forall_cons in Hq' as [Htx Hrest].
  destruct (tx_pending tx) as [o|request k onerr|k onerr] eqn:Hp.
  - inversion Htx; subst; exact Hrest.
  - inversion Htx; subst.
    destruct (Engine.perform request (records w)) as [r [x|e]]; [|exact Hrest].
    apply continue_in_place; [done|exact Hrest].
  - inversion Htx as [| | |? ? Hk]; subst.
    destruct (k (Engine.cursor_events (records w))) as [p|] eqn:Hev; [|exact Hrest].
    apply continue_in_place; [eauto|exact Hrest].
Qed.

Lemma ticks_S n w : ticks (S n) w = ticks n (Engine.tick w).
Proof. unfold ticks. induction n; simpl in *; congruence. Qed.

Lemma tick_idle w : transactions w = [] -> Engine.tick w = w.
Proof. unfold Engine.tick. by intros ->. Qed.

Lemma ticks_idle n w : transactions w = [] -> ticks n w = w.
Proof.
  intros Hw. induction n; [done|]. by rewrite ticks_S, tick_idle.
Qed.

Lemma drain_idle w : transactions w = [] -> drain w = w.
Proof.
  intros Hw. unfold drain. rewrite Hw. simpl. rewrite <- Hw.
  apply with_transactions_id.
Qed.

Lemma work_idle w : work w = 0 -> transactions w = [].
Proof.
  unfold work. destruct (transactions w); [done|]. simpl. lia.
Qed.

Lemma ticks_in_place n w :
  queue_in_place w -> queue_in_place (ticks n w).
Proof.
  revert w. induction n; intros w Hq; [done|].
  rewrite ticks_S. by apply IHn, tick_in_place.
Qed.

Lemma ticks_drain n w :
  queue_in_place w -> drain (ticks n w) = drain w.
Proof.
  revert w. induction n; intros w Hq; [done|].
  rewrite ticks_S, IHn by (by apply tick_in_place). by apply tick_drain.
Qed.

Lemma work_of_idle w : transactions w = [] -> work w = 0.
Proof. unfold work. by intros ->. Qed.

Lemma ticks_work n w :
  queue_in_place w -> work (ticks n w) = work w - n.
Proof.
  revert w. induction n; intros w Hq; [simpl; lia|].
  rewrite ticks_S.
  destruct (transactions w) as [|tx rest] eqn:Hw.
  - rewrite tick_idle by done. rewrite IHn by done.
    rewrite work_of_idle by done. lia.
  - pose proof (tick_work w Hq) as Hs. rewrite Hw in Hs.
    rewrite IHn by (by apply tick_in_place). specialize (Hs ltac:(done)). lia.
Qed.

(** Enough ticks complete every live transaction. *)
Lemma ticks_settle n w :
  queue_in_place w -> work w <= n -> ticks n w = drain w.
Proof.
  revert w. induction n; intros w Hq Hn.
  - assert (transactions w = []) as Hw by (apply work_idle; lia).
    by rewrite drain_idle.
  - destruct (transactions w) as [|tx rest] eqn:Hw.
    + by rewrite ticks_idle, drain_idle.
    + pose proof (tick_work w Hq) as Hs. rewrite Hw in Hs.
      specialize (Hs ltac:(done)).
      rewrite ticks_S, IHn; [by apply tick_drain|by apply tick_in_place|lia].
Qed.

Lemma work_of_app q tx w :
  work_of (q ++ [tx]) w
  = work_of q w
    + Nat.max 1 (requests (tx_pending tx) (records (foldl complete_tx w q))).
Proof.
  revert w. induction q as [|t q IH]; intros w; simpl; [lia|].
  rewrite IH. lia.
Qed.

(** A transaction opened now is completed after the live ones. *)
Lemma open_drain id mode body w :
  requesting body = true ->
  drain (Engine.open_transaction id mode body w) = complete id body (drain w).
Proof.
  intros Hb. destruct body; [done|..];
    unfold drain; simpl; by rewrite foldl_app.
Qed.

Lemma open_work id mode body w :
  requesting body = true ->
  work (Engine.open_transaction id mode body w)
  = work w + Nat.max 1 (requests body (records (drain w))).
Proof.
  intros Hb. destruct body; [done|..];
    unfold work; simpl; by rewrite work_of_app.
Qed.

Lemma open_in_place id mode body w :
  in_place body -> queue_in_place w ->
  queue_in_place (Engine.open_transaction id mode body w).
Proof.
  intros Hb Hq. destruct body; [inversion Hb; subst; exact Hq|..];
    apply Forall_app; split; [done| |done|]; by apply Forall_singleton.
Qed.

End SerialFacts.

(** ** The IndexedDB backend on its database *)

Module IndexedDBFacts.
Import Serial SerialFacts IndexedDB.
Section Facts.
Context `{JSON} `{IDBFactory}.

Lemma run_app st e1 e2 : run st (e1 ++ e2) = run (run st e1) e2.
Proof. apply foldl_app. Qed.

Lemma run_cons st e events : run st (e :: events) = run (step st e) events.
Proof. reflexivity. Qed.

Lemma run_nil st : run st [] = st.
Proof. reflexivity. Qed.

Lemma run_ticks st n :
  run st (repeat Tick n) = with_browser (ticks n (browser st)) st.
Proof.
  revert st. induction n; intros st.
  - by destruct st.
  - change (repeat Tick (S n)) with (Tick :: repeat Tick n).
    rewrite run_cons, IHn, ticks_S. reflexivity.
Qed.

(** A call on the database opens a transaction for a new subscriber. *)
Lemma step_call st op mode body :
  primary st ->
  method op (this st) (browser st) = Normal (onDatabase mode body, browser st) ->
  step st (Call op)
  = {| this := this st; given_prefix := given_prefix st; opening := opening st;
       browser := Engine.open_transaction (subscribers st) mode body (browser st);
       subscribers := S (subscribers st) |}.
Proof.
  intros [Hfb Hdb] Hm. simpl. rewrite Hm. simpl. rewrite Hdb.
  destruct st as [[? ? ? ?] ? ? ? ?]; simpl in *; by subst.
Qed.

Lemma call_settles st op mode body :
  primary st -> queue_in_place (browser st) ->
  method op (this st) (browser st) = Normal (onDatabase mode body, browser st) ->
  in_place body -> requesting body = true ->
  let st' := step st (Call op) in
  primary st' /\ queue_in_place (browser st')
  /\ subscribers st' = S (subscribers st)
  /\ drain (browser st') = complete (subscribers st) body (drain (browser st))
  /\ work (browser st')
     = work (browser st) + Nat.max 1 (requests body (records (drain (browser st)))).
Proof.
  intros Hp Hq Hm Hb Hr st'. subst st'. rewrite (step_call st op mode body) by done.
  simpl. split; [exact Hp|]. split; [by apply open_in_place|]. split; [done|].
  split; [by apply open_drain|by apply open_work].
Qed.

Lemma ticks_settles st n :
  primary st -> queue_in_place (browser st) ->
  let st' := run st (repeat Tick n) in
  primary st' /\ queue_in_place (browser st')
  /\ subscribers st' = subscribers st
  /\ drain (browser st') = drain (browser st)
  /\ work (browser st') = work (browser st) - n
  /\ (work (browser st) <= n -> browser st' = drain (browser st)).
Proof.
  intros Hp Hq st'. subst st'. rewrite run_ticks. simpl.
  split; [exact Hp|]. split; [by apply ticks_in_place|]. split; [done|].
  split; [by apply ticks_drain|]. split; [by apply ticks_work|].
  intros Hn. by apply ticks_settle.
Qed.

Lemma requestEventsAndMapTo_in_place request mapCallback :
  in_place (requestEventsAndMapTo request mapCallback).
Proof.
  constructor. intros result. unfold map_callback.
  destruct (mapCallback result); constructor.
Qed.

Lemma requestEvents_in_place request next :
  (forall result, in_place (next result)) -> in_place (requestEvents request next).
Proof. intros Hn. by constructor. Qed.

(** What the callback of [getItem] makes of the result of the request. *)
Lemma getItem_mapCallback_spec (result : jsval) :
  getItem_mapCallback result
  = Normal
      match result with
      | JUndefined | JNull => JNull
      | JObject fields =>
          match JS.assoc dataPath fields with
          | Some content => if JS.loose_null content then result else content
          | None => result
          end
      | _ => result
      end.
Proof.
  destruct result as [| | | | |items|fields]; try reflexivity.
  unfold getItem_mapCallback. simpl.
  destruct (JS.assoc dataPath fields) as [[]|] eqn:Hc; simpl;
    rewrite ?bool_decide_eq_true_2, ?bool_decide_eq_false_2 by
      (try (eexists; reflexivity); intros [? ?]; done);
    reflexivity.
Qed.

Lemma with_records_id (w : Browser) : with_records (records w) w = w.
Proof. by destruct w. Qed.

Lemma method_getItem st key :
  primary st ->
  method (call_getItem key) (this st) (browser st)
  = Normal (onDatabase readonly (requestEventsAndMapTo (store_get key) getItem_mapCallback),
            browser st).
Proof. intros [Hfb _]. simpl. unfold getItem. by rewrite Hfb. Qed.

(** [getItem] on the database: one request, and the subscriber is told
    what the callback makes of the record. *)
Lemma primary_getItem st key :
  primary st ->
  exists body,
    method (call_getItem key) (this st) (browser st)
    = Normal (onDatabase readonly body, browser st)
    /\ in_place body /\ requesting body = true
    /\ (forall r, requests body r = 1)
    /\ (forall id w v,
          getItem_mapCallback (default JUndefined (records w !! key)) = Normal v ->
          complete id body w = notify id (next_complete v) w).
Proof.
  intros Hp. eexists. split; [by apply method_getItem|].
  split; [apply requestEventsAndMapTo_in_place|]. split; [done|]. split.
  - intros r. simpl. by destruct (getItem_mapCallback _).
  - intros id w v Hv. simpl. rewrite Hv. simpl. by rewrite with_records_id.
Qed.

(** [setItem] of a value on the database: the lookup and the write, two
    requests; when the lookup sees what is there, the wrapped value is
    the record and the subscriber is told [true]. *)
Lemma primary_setItem st key data :
  primary st -> data <> JUndefined -> data <> JNull ->
  exists body,
    method (call_setItem key data) (this st) (browser st)
    = Normal (onDatabase readwrite body, browser st)
    /\ in_place body /\ requesting body = true
    /\ (forall r, requests body r = 2)
    /\ (forall id w,
          lookup_sees key (records w) ->
          complete id body w
          = notify id (next_complete (JBool true))
              (with_records (<[key := JObject [(dataPath, data)]]> (records w)) w)).
Proof.
  intros [Hfb _] Hu Hn. eexists. split.
  { simpl. unfold setItem. rewrite Hfb. by destruct data. }
  split.
  { apply requestEvents_in_place. intros. apply requestEventsAndMapTo_in_place. }
  split; [done|]. split.
  - intros r. unfold getKeyRequest. destruct hasGetKey; simpl.
    + destruct (r !! key) as [x|] eqn:Hr; simpl; [done|]. by rewrite Hr.
    + destruct (r !! key) as [x|] eqn:Hr; simpl.
      * destruct (JS.is_undefined x); simpl; [by rewrite Hr|done].
      * by rewrite Hr.
  - intros id w Hsees. unfold lookup_sees in Hsees. unfold getKeyRequest.
    destruct hasGetKey eqn:Hk; simpl.
    + destruct (records w !! key) as [x|] eqn:Hr; simpl; [done|]. by rewrite Hr.
    + destruct Hsees as [|Hsees]; [done|].
      destruct (records w !! key) as [x|] eqn:Hr; simpl.
      * destruct x; simpl; done.
      * by rewrite Hr.
Qed.

(** [removeItem] on the database: the record is deleted. *)
Lemma primary_removeItem st key :
  primary st ->
  exists body,
    method (call_removeItem key) (this st) (browser st)
    = Normal (onDatabase readwrite body, browser st)
    /\ in_place body /\ requesting body = true
    /\ (forall r, requests body r = 1)
    /\ (forall id w,
          complete id body w
          = notify id (next_complete (JBool true))
              (with_records (delete key (records w)) w)).
Proof.
  intros [Hfb _]. eexists. split.
  { simpl. unfold removeItem. by rewrite Hfb. }
  split; [apply requestEventsAndMapTo_in_place|]. done.
Qed.

Lemma idle_in_place w : idle w -> queue_in_place w.
Proof. unfold idle, queue_in_place. intros ->. constructor. Qed.


(** Without fallback a transactional call returns an Observable on the
    database, whatever the state of the connection. *)
Lemma method_transactional op self w :
  fallback self = None -> transactional op = true ->
  exists mode body, method op self w = Normal (onDatabase mode body, w).
Proof.
  intros Hfb Hop. destruct op; simpl in *;
    unfold getItem, setItem, removeItem, clear, keys, has, size; rewrite Hfb; eauto.
  destruct (JS.is_undefined data || JS.is_null data); [done|eauto].
Qed.

(** A call made while the open request is awaited waits for the
    connection: it comes to the same as the call made right after the
    success of the request. *)
Lemma call_waits_for_connection st op observers :
  fallback (this st) = None -> database (this st) = subject_empty observers ->
  opening st = true -> transactional op = true ->
  step (step st (Call op)) OpenSuccess = step (step st OpenSuccess) (Call op).
Proof.
  intros Hfb Hdb Ho Hop.
  destruct (method_transactional op (this st) (browser st) Hfb Hop)
    as (mode & body & Hm).
  simpl. rewrite Hm, Ho. simpl. rewrite Hdb. simpl.
  destruct (method_transactional op
              (with_database subject_value (this st))
              (foldl (fun w' o =>
                        Engine.open_transaction (tx_subscriber o) (tx_mode o)
                          (tx_pending o) w')
                     (browser st) observers)
              Hfb Hop)
    as (mode' & body' & Hm').
  rewrite Hm'. simpl. rewrite foldl_app. simpl.
  assert (mode' = mode /\ body' = body) as [-> ->]; [|done].
  clear -Hm Hm' Hfb.
  destruct op; simpl in *;
    unfold getItem, setItem, removeItem, clear, keys, has, size in *;
    simpl in *; rewrite Hfb in *;
    try (destruct (JS.is_undefined data || JS.is_null data));
    inversion Hm; inversion Hm'; subst; done.
Qed.

(** A read on the idle database. *)
Lemma primary_read st key n v :
  primary st -> idle (browser st) -> 1 <= n ->
  getItem_mapCallback (default JUndefined (records (browser st) !! key)) = Normal v ->
  browser (run st (Call (call_getItem key) :: repeat Tick n))
  = notify (subscribers st) (next_complete v) (browser st).
Proof.
  intros Hp Hi Hn Hv.
  destruct (primary_getItem st key Hp) as (body & Hm & Hin & Hrq & Hcost & Hc).
  destruct (call_settles st _ _ _ Hp (idle_in_place _ Hi) Hm Hin Hrq)
    as (Hp1 & Hq1 & Hs1 & Hd1 & Hw1).
  rewrite run_cons.
  destruct (ticks_settles _ n Hp1 Hq1) as (_ & _ & _ & _ & _ & Hfin).
  rewrite Hfin, Hd1, drain_idle by (rewrite ?Hw1, ?Hcost, ?work_of_idle; done || lia).
  by apply Hc.
Qed.




(** A removal and a read on the idle database. *)
Lemma primary_remove_read st key a b :
  primary st -> idle (browser st) ->
  (1 - a) + 1 <= b ->
  let w := browser (run st (Call (call_removeItem key) :: repeat Tick a
                            ++ Call (call_getItem key) :: repeat Tick b)) in
  records w !! key = None
  /\ notified w
     = (S (subscribers st), next_complete JNull)
         :: (subscribers st, next_complete (JBool true))
         :: notified (browser st).
Proof.
  intros Hp Hi Hb.
  destruct (primary_removeItem st key Hp) as (del & Hm & Hin & Hrq & Hcost & Hc).
  destruct (call_settles st _ _ _ Hp (idle_in_place _ Hi) Hm Hin Hrq)
    as (Hp1 & Hq1 & Hs1 & Hd1 & Hw1).
  rewrite run_cons, run_app.
  destruct (ticks_settles _ a Hp1 Hq1) as (Hp2 & Hq2 & Hs2 & Hd2 & Hw2 & _).
  destruct (primary_getItem _ key Hp2) as (get & Hm' & Hin' & Hrq' & Hcost' & Hc').
  destruct (call_settles _ _ _ _ Hp2 Hq2 Hm' Hin' Hrq')
    as (Hp3 & Hq3 & Hs3 & Hd3 & Hw3).
  rewrite run_cons.
  destruct (ticks_settles _ b Hp3 Hq3) as (_ & _ & _ & _ & _ & Hfin).
  rewrite Hfin.
  2:{ rewrite Hw3, Hw2, Hw1, Hcost, Hcost', work_of_idle by done. lia. }
  rewrite Hd3, Hd2, Hd1, drain_idle by done.
  rewrite Hc. rewrite Hs2, Hs1.
  erewrite Hc'; [split; [apply lookup_delete_eq|reflexivity]|].
  simpl. by rewrite lookup_delete_eq.
Qed.

(** [setItem] of [null] or [undefined] on the database writes nothing:
    the subscriber is told [true] and that is all. *)
Lemma primary_setItem_nothing st key data :
  fallback (this st) = None -> data = JUndefined \/ data = JNull ->
  step st (Call (call_setItem key data))
  = {| this := this st; given_prefix := given_prefix st; opening := opening st;
       browser := notify (subscribers st) (next_complete (JBool true)) (browser st);
       subscribers := S (subscribers st) |}.
Proof.
  intros Hfb Hdata. simpl. unfold setItem. rewrite Hfb.
  destruct Hdata as [-> | ->]; simpl; by destruct st as [[] ? ? ? ?].
Qed.

End Facts.
End IndexedDBFacts.

(** ** The IndexedDB backend on its fallback *)

Module FallbackFacts.
Import IndexedDB.
Section Facts.
Context `{JSON} `{IDBFactory}.

Lemma with_localStorage_id (w : Browser) : with_localStorage (localStorage w) w = w.
Proof. by destruct w. Qed.

(** With the fallback set, every method is the method of the fallback. *)
Lemma method_delegated op self fb w :
  fallback self = Some fb -> method op self w = delegated op fb w.
Proof.
  intros Hfb. unfold delegated.
  destruct op; simpl;
    unfold getItem, setItem, removeItem, clear, keys, has, size; rewrite Hfb; simpl;
    rewrite ?with_localStorage_id; try reflexivity.
  destruct (LocalStorage.getItem fb key (localStorage w)); simpl;
    by rewrite ?with_localStorage_id.
Qed.

Lemma step_coherent st ev : coherent st -> coherent (step st ev).
Proof.
  unfold coherent, disconnected. intros Hc. destruct ev as [op| |e|]; simpl.
  - destruct (method op (this st) (browser st)) as [[o w]|e]; [|done].
    destruct (Subject.subscribe _ _ _ _) as [d w'] eqn:Hsub. simpl.
    assert ((exists obs, database (this st) = subject_empty obs) ->
            exists obs, d = subject_empty obs) as Hd.
    { intros [obs Hobs]. rewrite Hobs in Hsub.
      destruct o; simpl in Hsub; inversion Hsub; eauto. }
    destruct (fallback (this st)); [destruct Hc; split; eauto|eauto].
  - destruct (opening st) eqn:Ho; [|by rewrite Ho].
    destruct (Subject.next _ _) as [d w'] eqn:Hnext. simpl.
    destruct (fallback (this st)); [by destruct Hc|done].
  - destruct (opening st) eqn:Ho; [|by rewrite Ho]. simpl.
    destruct (fallback (this st)); [by destruct Hc|]. split; eauto.
  - exact Hc.
Qed.

Lemma constructor_coherent pre name store w :
  coherent (constructor pre name store w).
Proof.
  unfold coherent, disconnected, constructor, connect.
  destruct indexedDB_open; simpl; eauto.
Qed.

Lemma run_coherent st events : coherent st -> coherent (run st events).
Proof.
  revert st. induction events as [|ev events IH]; intros st Hc; [done|].
  apply IH, step_coherent, Hc.
Qed.

Lemma reachable_coherent st : reachable st -> coherent st.
Proof.
  intros (pre & name & store & w & events & ->).
  apply run_coherent, constructor_coherent.
Qed.

(** Once the open request is not awaited any more, no event clears or
    replaces the fallback. *)
Lemma step_fallback st ev fb :
  opening st = false -> fallback (this st) = Some fb ->
  fallback (this (step st ev)) = Some fb /\ opening (step st ev) = false.
Proof.
  intros Ho Hfb. destruct ev as [op| |e|]; simpl; rewrite ?Ho; try done.
  destruct (method op (this st) (browser st)) as [[o w]|e]; [|done].
  by destruct (Subject.subscribe _ _ _ _).
Qed.

Lemma run_fallback st events fb :
  opening st = false -> fallback (this st) = Some fb ->
  fallback (this (run st events)) = Some fb /\ opening (run st events) = false.
Proof.
  revert st. induction events as [|ev events IH]; intros st Ho Hfb; [done|].
  destruct (step_fallback st ev fb Ho Hfb). by apply IH.
Qed.

Lemma subscribe_at_once id o n d w :
  Subject.told_at_once o = Some n -> Subject.subscribe id o d w = (d, notify id n w).
Proof. destruct o; simpl; intros Hn; inversion Hn; done. Qed.

(** The fallback answers every call on the spot: the writes with [true],
    a read with a value or with its own failure on unreadable text. *)
Lemma fallback_answers op fb s :
  exists o s' n,
    LocalStorage.method op fb s = Normal (o, s')
    /\ Subject.told_at_once o = Some n
    /\ match op with
       | call_getItem _ =>
           (exists v, n = next_complete v)
           \/ n = error (Error "Invalid data in localStorage.")
       | call_setItem _ _ | call_removeItem _ | call_clear =>
           n = next_complete (JBool true)
       | _ => exists v, n = next_complete v
       end.
Proof.
  destruct op; simpl; try (do 3 eexists; repeat split; eauto; fail).
  unfold LocalStorage.getItem, Storage.getItem.
  destruct (s !! key) as [text|]; simpl.
  - destruct (JSON_parse text); simpl; do 3 eexists; repeat split; eauto.
  - do 3 eexists; repeat split; eauto.
Qed.

(** A call with the fallback set: the caller is told at once what the
    fallback says. *)
Lemma fallback_call st op fb o s n :
  fallback (this st) = Some fb ->
  LocalStorage.method op fb (localStorage (browser st)) = Normal (o, s) ->
  Subject.told_at_once o = Some n ->
  step st (Call op)
  = {| this := this st; given_prefix := given_prefix st; opening := opening st;
       browser := notify (subscribers st) n (with_localStorage s (browser st));
       subscribers := S (subscribers st) |}.
Proof.
  intros Hfb Hm Hn. simpl. rewrite (method_delegated op _ fb) by done.
  unfold delegated. rewrite Hm. simpl. rewrite (subscribe_at_once _ _ n) by done.
  destruct st as [[] ? ? ? ?]; done.
Qed.


Lemma connection_failed_fallback st :
  connection_failed st ->
  opening st = false
  /\ fallback (this st) = Some (new_LocalStorageDatabase (given_prefix st)).
Proof.
  intros [pre name store w e He|st' e Ho].
  - unfold constructor, connect. by rewrite He.
  - simpl. by rewrite Ho.
Qed.

Lemma run_given_prefix st events : given_prefix (run st events) = given_prefix st.
Proof.
  revert st. induction events as [|ev events IH]; intros st; [done|].
  rewrite IndexedDBFacts.run_cons, IH. destruct ev as [op| |e|]; simpl; try done.
  - destruct (method op (this st) (browser st)) as [[o w]|e]; [|done].
    by destruct (Subject.subscribe _ _ _ _).
  - destruct (opening st); [|done]. by destruct (Subject.next _ _).
  - by destruct (opening st).
Qed.

(** A method call by itself tells nobody anything and leaves the
    engine alone. *)
Lemma method_frame op self w o w' :
  method op self w = Normal (o, w') ->
  notified w' = notified w /\ transactions w' = transactions w.
Proof.
  destruct op; simpl;
    unfold getItem, setItem, removeItem, clear, keys, has, size;
    destruct (fallback self); simpl;
    try (destruct (JS.is_undefined data || JS.is_null data));
    try (destruct (LocalStorage.getItem _ _ _); simpl);
    intros Hm; inversion Hm; subst; done.
Qed.

Lemma told_other id i n log :
  i <> id -> told id log = None -> told id ((i, n) :: log) = None.
Proof.
  intros Hi Hlog. simpl. rewrite Hlog.
  destruct (Nat.eqb_spec i id); done.
Qed.

(** In a disconnected instance nobody who subscribed before is told
    anything any more. *)
Lemma disconnected_step st ev id :
  disconnected st -> Serial.idle (browser st) ->
  outcome id (browser st) = None -> id < subscribers st ->
  let st' := step st ev in
  disconnected st' /\ Serial.idle (browser st')
  /\ outcome id (browser st') = None /\ id < subscribers st'.
Proof.
  unfold disconnected, Serial.idle, outcome.
  intros (Ho & obs & Hdb) Hi Hid Hlt. destruct ev as [op| |e|]; simpl; rewrite ?Ho.
  - destruct (method op (this st) (browser st)) as [[o w]|e] eqn:Hm.
    + destruct (method_frame _ _ _ _ _ Hm) as [Hn Ht].
      rewrite Hdb. destruct o as [v|e|mode body]; simpl.
      all: rewrite Hn, Ht; repeat split; eauto; try lia.
      all: rewrite Hid; destruct (Nat.eqb_spec (subscribers st) id); [lia|done].
    + simpl. repeat split; eauto; try lia.
      rewrite Hid; destruct (Nat.eqb_spec (subscribers st) id); [lia|done].
  - eauto 10.
  - eauto 10.
  - rewrite SerialFacts.tick_idle by done. eauto 10.
Qed.

Lemma disconnected_never_told st id :
  disconnected st -> Serial.idle (browser st) ->
  outcome id (browser st) = None -> id < subscribers st ->
  never_told id st.
Proof.
  intros Hd Hi Hid Hlt events. revert st Hd Hi Hid Hlt.
  induction events as [|ev events IH]; intros st Hd Hi Hid Hlt; [done|].
  destruct (disconnected_step st ev id Hd Hi Hid Hlt) as (? & ? & ? & ?).
  by apply IH.
Qed.

End Facts.
End FallbackFacts.

(** ** The localStorage backend *)

Module LocalStorageFacts.
Section Facts.
Context `{JSON}.
Implicit Types (fb : LocalStorageDatabase) (s : gmap string string).

Lemma getItem_absent fb key s :
  s !! key = None -> LocalStorage.getItem fb key s = Normal (observableOf JNull).
Proof. unfold LocalStorage.getItem, Storage.getItem. by intros ->. Qed.

Lemma getItem_parsed fb key s text v :
  s !! key = Some text -> JSON_parse text = Normal v ->
  LocalStorage.getItem fb key s = Normal (observableOf v).
Proof.
  unfold LocalStorage.getItem, Storage.getItem. intros -> Hv. simpl. by rewrite Hv.
Qed.

Lemma getItem_unparsable fb key s text e :
  s !! key = Some text -> JSON_parse text = Throw e ->
  LocalStorage.getItem fb key s
  = Normal (observableThrow (Error "Invalid data in localStorage.")).
Proof.
  unfold LocalStorage.getItem, Storage.getItem. intros -> He. simpl. by rewrite He.
Qed.

(** [setItem] writes whatever it is given: the text of the value, or
    ["undefined"] when the value has no text. *)
Lemma setItem_writes fb key data s :
  LocalStorage.setItem fb key data s
  = (observableOf (JBool true),
     <[key := Storage.to_DOMString (JSON_stringify data)]> s).
Proof. reflexivity. Qed.



Lemma removeItem_getItem fb key s :
  (LocalStorage.removeItem fb key s).2 !! key = None
  /\ LocalStorage.getItem fb key (LocalStorage.removeItem fb key s).2
     = Normal (observableOf JNull).
Proof.
  assert ((LocalStorage.removeItem fb key s).2 !! key = None) as Hk
    by apply lookup_delete_eq.
  split; [done|by apply getItem_absent].
Qed.

End Facts.
End LocalStorageFacts.

(** ** The claims of the specification *)

Section Claims.
Context `{JSON} `{IDBFactory}.
Import IndexedDB.

(** C8. On the fallback backend, [getItem] over stored text that is not
    JSON does not throw into the caller: the call returns an Observable,
    and the subscriber is told the failure "Invalid data in
    localStorage." *)
Theorem getItem_invalid_data fb key s text e :
  s !! key = Some text ->
  JSON_parse text = Throw e ->
  LocalStorage.getItem fb key s
  = Normal (observableThrow (Error "Invalid data in localStorage."))
  /\ forall st,
       fallback (this st) = Some fb -> localStorage (browser st) = s ->
       browser (step st (Call (call_getItem key)))
       = notify (subscribers st) (error (Error "Invalid data in localStorage."))
           (browser st).
Proof.
  intros Hs He.
  pose proof (LocalStorageFacts.getItem_unparsable fb key s text e Hs He) as Hg.
  split; [exact Hg|]. intros st Hfb <-.
  erewrite FallbackFacts.fallback_call; [|exact Hfb|simpl; by rewrite Hg|reflexivity].
  simpl. by rewrite FallbackFacts.with_localStorage_id.
Qed.

(** C6. [getItem] of a key that holds nothing tells the subscriber
    [null], and no failure: on the database, once the request is served;
    on the database when the call comes before the connection; with the
    fallback set; and on the localStorage backend itself. *)
Theorem getItem_absent_key key :
  (forall st n,
     primary st -> Serial.idle (browser st) ->
     records (browser st) !! key = None -> 1 <= n ->
     browser (run st (Call (call_getItem key) :: repeat Tick n))
     = notify (subscribers st) (next_complete JNull) (browser st))
  /\ (forall st n,
        fallback (this st) = None -> database (this st) = subject_empty [] ->
        opening st = true -> Serial.idle (browser st) ->
        records (browser st) !! key = None -> 1 <= n ->
        browser (run st (Call (call_getItem key) :: OpenSuccess :: repeat Tick n))
        = notify (subscribers st) (next_complete JNull) (browser st))
  /\ (forall st fb,
        fallback (this st) = Some fb -> localStorage (browser st) !! key = None ->
        browser (step st (Call (call_getItem key)))
        = notify (subscribers st) (next_complete JNull) (browser st))
  /\ (forall fb s,
        s !! key = None ->
        LocalStorage.getItem fb key s = Normal (observableOf JNull)).
Proof.
  split; [|split; [|split]].
  - intros st n Hp Hi Hk Hn. apply IndexedDBFacts.primary_read; try done.
    by rewrite Hk.
  - intros st n Hfb Hdb Ho Hi Hk Hn.
    rewrite IndexedDBFacts.run_cons.
    assert (step st (Call (call_getItem key))
            = {| this := with_database
                           (subject_empty
                              [{| tx_subscriber := subscribers st; tx_mode := readonly;
                                  tx_pending :=
                                    requestEventsAndMapTo (store_get key)
                                      getItem_mapCallback |}])
                           (this st);
                 given_prefix := given_prefix st; opening := true;
                 browser := browser st; subscribers := S (subscribers st) |}) as ->.
    { simpl. unfold getItem. rewrite Hfb, Hdb, Ho. reflexivity. }
    rewrite IndexedDBFacts.run_cons. simpl step.
    rewrite IndexedDBFacts.run_ticks. simpl browser.
    rewrite SerialFacts.ticks_settle with (n := n).
    + unfold Serial.drain. simpl. rewrite Hi. simpl.
      unfold Serial.complete_tx. simpl. rewrite Hk. simpl.
      destruct (browser st); unfold Serial.idle in Hi; simpl in *; by subst.
    + unfold Serial.queue_in_place. simpl. rewrite Hi. simpl.
      apply Forall_singleton, IndexedDBFacts.requestEventsAndMapTo_in_place.
    + unfold Serial.work. simpl. rewrite Hi. simpl. rewrite Hk. simpl. lia.
  - intros st fb Hfb Hk.
    erewrite FallbackFacts.fallback_call;
      [|exact Hfb|simpl; by rewrite LocalStorageFacts.getItem_absent|reflexivity].
    simpl. by rewrite FallbackFacts.with_localStorage_id.
  - intros fb s. apply LocalStorageFacts.getItem_absent.
Qed.

(** C9. On the database, [getItem] tells the subscriber: the content of
    the field ['value'] when the record is an object that has the field
    with a content other than [null] and [undefined]; [null] when the
    record is [null] or [undefined]; and the record as it is in every
    other case. *)
Theorem getItem_dual_shape st key n record :
  primary st -> Serial.idle (browser st) -> 1 <= n ->
  records (browser st) !! key = Some record ->
  exists v,
    browser (run st (Call (call_getItem key) :: repeat Tick n))
    = notify (subscribers st) (next_complete v) (browser st)
    /\ (forall fields content,
          record = JObject fields -> JS.assoc "value" fields = Some content ->
          content <> JUndefined -> content <> JNull -> v = content)
    /\ (record = JUndefined \/ record = JNull -> v = JNull)
    /\ (record <> JUndefined -> record <> JNull ->
        (forall fields content,
           record = JObject fields -> JS.assoc "value" fields = Some content ->
           content = JUndefined \/ content = JNull) ->
        v = record).
Proof.
  intros Hp Hi Hn Hk.
  pose proof (IndexedDBFacts.getItem_mapCallback_spec record) as Hspec.
  eexists. split.
  { apply IndexedDBFacts.primary_read; try done. rewrite Hk. exact Hspec. }
  split; [|split].
  - intros fields content -> Hc Hu Hnull. unfold dataPath. rewrite Hc.
    by destruct content.
  - by intros [-> | ->].
  - intros Hu Hnull Hother. destruct record; try done.
    unfold dataPath. destruct (JS.assoc "value" fields) as [content|] eqn:Hc; [|done].
    by destruct (Hother _ _ eq_refl Hc) as [-> | ->].
Qed.



(** C1, as amended.  When [indexedDB.open] throws in the constructor, or
    the open request fires its error event, the instance has its
    fallback from then on, and every method called from then on is
    answered by the fallback at once: the writes with [true], [keys],
    [has] and [size] with a value, [getItem] with a value or with the
    failure of the fallback itself on text it cannot read. *)
Theorem connection_failure_answered_by_fallback st events op :
  connection_failed st ->
  let st' := run st events in
  let fb := new_LocalStorageDatabase (given_prefix st) in
  fallback (this st') = Some fb
  /\ exists o s n,
       LocalStorage.method op fb (localStorage (browser st')) = Normal (o, s)
       /\ Subject.told_at_once o = Some n
       /\ browser (step st' (Call op))
          = notify (subscribers st') n (with_localStorage s (browser st'))
       /\ match op with
          | call_getItem _ =>
              (exists v, n = next_complete v)
              \/ n = error (Error "Invalid data in localStorage.")
          | call_setItem _ _ | call_removeItem _ | call_clear =>
              n = next_complete (JBool true)
          | _ => exists v, n = next_complete v
          end.
Proof.
  intros Hfail st' fb.
  destruct (FallbackFacts.connection_failed_fallback st Hfail) as [Ho Hfb].
  destruct (FallbackFacts.run_fallback st events _ Ho Hfb) as [Hfb' _].
  split; [exact Hfb'|].
  destruct (FallbackFacts.fallback_answers op fb (localStorage (browser st')))
    as (o & s & n & Hm & Hn & Hshape).
  exists o, s, n. repeat split; try done.
  by rewrite (FallbackFacts.fallback_call st' op fb o s n).
Qed.

(** C2. In every state an instance can reach, a fallback that is set
    stays the same whatever happens next; the instance is never
    connected to the database; and every method is the method of the
    fallback. *)
Theorem fallback_is_permanent st fb events :
  reachable st ->
  fallback (this st) = Some fb ->
  let st' := run st events in
  fallback (this st') = Some fb
  /\ disconnected st'
  /\ forall op, method op (this st') (browser st') = delegated op fb (browser st').
Proof.
  intros Hreach Hfb st'.
  pose proof (FallbackFacts.reachable_coherent st Hreach) as Hc.
  pose proof (FallbackFacts.run_coherent st events Hc) as Hc'.
  assert (opening st = false) as Ho.
  { unfold coherent in Hc. rewrite Hfb in Hc. by destruct Hc. }
  destruct (FallbackFacts.run_fallback st events fb Ho Hfb) as [Hfb' _].
  fold st' in Hfb', Hc'. split; [exact Hfb'|]. split.
  - unfold coherent in Hc'. by rewrite Hfb' in Hc'.
  - intros op. by apply FallbackFacts.method_delegated.
Qed.

End Claims.

Section ServiceClaims.
Context `{JSON} `{IDBFactory} `{JSONValidator}.
Import IndexedDB.

Lemma validated_in_place schema v : Serial.in_place (inner (Service.validated schema v)).
Proof.
  unfold Service.validated. destruct schema as [sch|]; [|constructor].
  destruct (negb (JS.is_null v)); [|constructor].
  destruct (validate v sch) as [[]|]; constructor.
Qed.

(** The service in front of the database: the subscriber is told what
    the validation makes of the value the backend yields. *)
Lemma service_getItem_database id key self w w' o schema n v answer :
  fallback self = None -> getItem key self w = Normal (o, w') ->
  Serial.idle w -> 1 <= n ->
  getItem_mapCallback (default JUndefined (records w !! key)) = Normal v ->
  Subject.told_at_once (Service.validated schema v) = Some answer ->
  Serial.ticks n (Engine.subscribe_connected id (Service.getItem o schema) w)
  = notify id answer w.
Proof.
  unfold getItem. intros -> [= <- <-] Hi Hn Hv Hans.
  rewrite SerialFacts.ticks_settle with (n := n).
  - unfold Serial.drain. simpl. rewrite Hi. simpl.
    unfold Serial.complete_tx. simpl. rewrite Hv. simpl.
    destruct (Service.validated schema v); simpl in *; inversion Hans; subst;
      destruct w; unfold Serial.idle in Hi; simpl in *; by subst.
  - unfold Serial.queue_in_place. simpl. rewrite Hi. simpl.
    apply Forall_singleton. simpl. constructor. intros result.
    destruct (getItem_mapCallback result); simpl; [apply validated_in_place|constructor].
  - unfold Serial.work. simpl. rewrite Hi. simpl. rewrite Hv. simpl. lia.
Qed.

(** C7. A read through the service with a schema: a value that fails
    the schema makes the read fail with the message "JSON invalid"; a
    value that passes is yielded as it is; and for an absent key the
    read yields [null] whatever the validator would say.  This holds
    in front of the database and in front of the localStorage backend. *)
Theorem schema_validated_reads key schema :
  (forall id self w w' o n v,
     fallback self = None -> getItem key self w = Normal (o, w') ->
     Serial.idle w -> 1 <= n ->
     getItem_mapCallback (default JUndefined (records w !! key)) = Normal v ->
     let told := Serial.ticks n
                   (Engine.subscribe_connected id (Service.getItem o (Some schema)) w) in
     (v <> JNull -> validate v schema = Normal false ->
      told = notify id (error (Error "JSON invalid")) w)
     /\ (validate v schema = Normal true -> told = notify id (next_complete v) w)
     /\ (records w !! key = None -> told = notify id (next_complete JNull) w))
  /\ (forall fb s,
        (forall text v,
           s !! key = Some text -> JSON_parse text = Normal v ->
           let o := Service.getItem (observableOf v) (Some schema) in
           LocalStorage.getItem fb key s = Normal (observableOf v)
           /\ (v <> JNull -> validate v schema = Normal false ->
               o = observableThrow (Error "JSON invalid"))
           /\ (validate v schema = Normal true -> o = observableOf v))
        /\ (s !! key = None ->
            LocalStorage.getItem fb key s = Normal (observableOf JNull)
            /\ Service.getItem (observableOf JNull) (Some schema) = observableOf JNull)).
Proof.
  split.
  - intros id self w w' o n v Hfb Hg Hi Hn Hv told. subst told.
    split; [|split].
    + intros Hnull Hval.
      eapply service_getItem_database; eauto.
      simpl. rewrite Hval. by destruct v.
    + intros Hval.
      eapply service_getItem_database; eauto.
      simpl. rewrite Hval. by destruct v.
    + intros Hk.
      apply (service_getItem_database id key self w w' o (Some schema) n JNull
               (next_complete JNull)); try done.
      by rewrite Hk.
  - intros fb s. split.
    + intros text v Hs Hp o. subst o. split; [|split].
      * by eapply LocalStorageFacts.getItem_parsed.
      * intros Hnull Hval. simpl. rewrite Hval. by destruct v.
      * intros Hval. simpl. rewrite Hval. by destruct v.
    + intros Hs. split; [by apply LocalStorageFacts.getItem_absent|done].
Qed.

End ServiceClaims.

(** ** The backends run on concrete values *)

Section BlockedBrowser.
Import IndexedDB.
#[local] Existing Instance TextJSON.json.
#[local] Existing Instance blocked_browser.

(** C5, the fallback.  With the fallback set, [setItem] of [null] writes
    the text of [null] under the key, which [keys] then lists; and
    [setItem] of [undefined] writes the text "undefined", on which the
    next [getItem] fails. *)
Theorem fallback_setItem_null_is_written :
  let st := constructor None "ngStorage" "localStorage" fresh in
  fallback (this st) = Some (new_LocalStorageDatabase None)
  /\ browser (run st [Call (call_setItem "k" JNull); Call call_keys;
                      Call (call_getItem "k")])
     = {| records := ∅; transactions := [];
          localStorage := {["k" := "null"]};
          notified := [(2, next_complete JNull);
                       (1, next_complete (JArray [JString "k"]));
                       (0, next_complete (JBool true))] |}
  /\ browser (run st [Call (call_setItem "k" JUndefined); Call (call_getItem "k")])
     = {| records := ∅; transactions := [];
          localStorage := {["k" := "undefined"]};
          notified := [(1, error (Error "Invalid data in localStorage."));
                       (0, next_complete (JBool true))] |}.
Proof. repeat split; vm_compute; reflexivity. Qed.

Lemma fallback_is_permanent_witness :
  let st := constructor None "ngStorage" "localStorage" fresh in
  let st' := run st [Call (call_setItem "k" (JString "v")); OpenSuccess; Tick] in
  fallback (this st') = Some (new_LocalStorageDatabase None)
  /\ disconnected st'
  /\ forall op,
       method op (this st') (browser st')
       = delegated op (new_LocalStorageDatabase None) (browser st').
Proof.
  intros st st'.
  apply (fallback_is_permanent st (new_LocalStorageDatabase None)
           [Call (call_setItem "k" (JString "v")); OpenSuccess; Tick]).
  - exists None, "ngStorage", "localStorage", fresh, []. reflexivity.
  - reflexivity.
Defined.

Lemma connection_failure_answered_by_fallback_witness :
  let st := constructor None "ngStorage" "localStorage" fresh in
  let st' := run st [Call (call_setItem "k" (JString "v")); Tick] in
  fallback (this st') = Some (new_LocalStorageDatabase None)
  /\ exists o s n,
       LocalStorage.method (call_getItem "k") (new_LocalStorageDatabase None)
         (localStorage (browser st')) = Normal (o, s)
       /\ Subject.told_at_once o = Some n
       /\ browser (step st' (Call (call_getItem "k")))
          = notify (subscribers st') n (with_localStorage s (browser st'))
       /\ ((exists v, n = next_complete v)
           \/ n = error (Error "Invalid data in localStorage.")).
Proof.
  intros st st'.
  apply (connection_failure_answered_by_fallback st
           [Call (call_setItem "k" (JString "v")); Tick] (call_getItem "k")).
  apply (open_threw None "ngStorage" "localStorage" fresh
           (DOMException "SecurityError" "The operation is insecure.")).
  reflexivity.
Defined.

Lemma getItem_invalid_data_witness :
  let s : gmap string string := {["k" := "{oops"]} in
  LocalStorage.getItem (new_LocalStorageDatabase None) "k" s
  = Normal (observableThrow (Error "Invalid data in localStorage."))
  /\ forall st,
       fallback (this st) = Some (new_LocalStorageDatabase None) ->
       localStorage (browser st) = s ->
       browser (step st (Call (call_getItem "k")))
       = notify (subscribers st) (error (Error "Invalid data in localStorage."))
           (browser st).
Proof.
  intros s.
  apply (getItem_invalid_data (new_LocalStorageDatabase None) "k" s "{oops"
           (SyntaxError "Unexpected token in JSON")).
  - reflexivity.
  - vm_compute. reflexivity.
Defined.

End BlockedBrowser.

Section ModernBrowser.
Import IndexedDB.
#[local] Existing Instance TextJSON.json.
#[local] Existing Instance modern_browser.
#[local] Existing Instance required_validator.

(** C1, as stated, fails.  A [getItem] called while the open request is
    awaited is never answered once the request has failed: its
    subscriber waits for a connection that the fallback does not stand
    in for.  In the earlier revision of the backend, which has no
    fallback, the same subscriber is told the connection failure.  And
    with the fallback set after a failed connection, a [getItem] over
    text that is not JSON is answered with a failure. *)
Lemma pending_call_never_settles :
  never_told 0
    (run (constructor None "ngStorage" "localStorage" fresh)
         [Call (call_getItem "k");
          OpenError (DOMException "UnknownError" "Internal error opening backing store")])
  /\ (exists st,
        IndexedDBEarlier.constructor None fresh = Normal st
        /\ notified
             (IndexedDBEarlier.browser
                (IndexedDBEarlier.run st
                   [Call (call_getItem "k");
                    OpenError (DOMException "UnknownError"
                                 "Internal error opening backing store")]))
           = [(0, error (Error ("IndexedDB connection issue : "
                                ++ "Internal error opening backing store.")))])
  /\ notified
       (browser
          (run (constructor None "ngStorage" "localStorage"
                  {| records := ∅; transactions := [];
                     localStorage := {["k" := "{oops"]}; notified := [] |})
               [OpenError (DOMException "UnknownError"
                             "Internal error opening backing store");
                Call (call_getItem "k")]))
     = [(0, error (Error "Invalid data in localStorage."))].
Proof.
  split; [|split].
  - apply FallbackFacts.disconnected_never_told.
    + split; [reflexivity|]. eexists. reflexivity.
    + reflexivity.
    + reflexivity.
    + vm_compute. lia.
  - eexists. split; reflexivity.
  - vm_compute. reflexivity.
Qed.

(** C10, the earlier revision.  [removeItem] of a key whose record is an
    object without the field ['value'] tells the subscriber [true] and
    leaves the record where it is: the item is looked up with [getItem],
    which yields [null] for such a record, and the deletion is skipped. *)
Theorem earlier_removeItem_keeps_record :
  exists st,
    IndexedDBEarlier.constructor None (holding "k" (JObject [("test", JString "value")]))
    = Normal st
    /\ IndexedDBEarlier.browser
         (IndexedDBEarlier.run st
            [OpenSuccess; Call (call_removeItem "k"); Tick; Tick; Tick])
       = {| records := {["k" := JObject [("test", JString "value")]]};
            transactions := []; localStorage := ∅;
            notified := [(0, next_complete (JBool true))] |}.
Proof. eexists. split; [reflexivity|]. vm_compute. reflexivity. Qed.

(** The same removal in the revision with the fallback deletes the
    record. *)
Lemma removeItem_deletes_record :
  browser
    (run (constructor None "ngStorage" "localStorage"
            (holding "k" (JObject [("test", JString "value")])))
         [OpenSuccess; Call (call_removeItem "k"); Tick; Tick; Tick])
  = {| records := ∅; transactions := []; localStorage := ∅;
       notified := [(0, next_complete (JBool true))] |}.
Proof. vm_compute. reflexivity. Qed.



Lemma getItem_absent_key_witness :
  let st := run (constructor None "ngStorage" "localStorage" fresh) [OpenSuccess] in
  browser (run st (Call (call_getItem "unknown") :: repeat Tick 1))
  = notify 0 (next_complete JNull) (browser st)
  /\ browser (run (constructor None "ngStorage" "localStorage" fresh)
                 (Call (call_getItem "unknown") :: OpenSuccess :: repeat Tick 1))
     = notify 0 (next_complete JNull) fresh
  /\ LocalStorage.getItem (new_LocalStorageDatabase None) "unknown" ∅
     = Normal (observableOf JNull).
Proof.
  intros st.
  destruct (getItem_absent_key "unknown") as (Hdb & Hwait & _ & Hls).
  split; [|split].
  - apply (Hdb st 1); [split; reflexivity|reflexivity|reflexivity|lia].
  - exact (Hwait (constructor None "ngStorage" "localStorage" fresh) 1
             eq_refl eq_refl eq_refl eq_refl eq_refl (le_n 1)).
  - apply Hls. reflexivity.
Defined.

Lemma getItem_dual_shape_witness :
  let st :=
    run (constructor None "ngStorage" "localStorage"
           (holding "test" (JObject [("value", JString "hello")])))
        [OpenSuccess] in
  exists v,
    browser (run st (Call (call_getItem "test") :: repeat Tick 1))
    = notify 0 (next_complete v) (browser st)
    /\ v = JString "hello".
Proof.
  intros st.
  destruct (getItem_dual_shape st "test" 1 (JObject [("value", JString "hello")]))
    as (v & Hrun & Hunwrap & _); [split; reflexivity|reflexivity|lia|reflexivity|].
  exists v. split; [exact Hrun|].
  apply (Hunwrap [("value", JString "hello")]); done.
Defined.

Lemma schema_validated_reads_witness :
  let schema := JObject [("required", JArray [JString "expected"])] in
  let w := holding "index" (JObject [("value", JObject [("unexpected", JString "value")])]) in
  let self := this (run (constructor None "ngStorage" "localStorage" w) [OpenSuccess]) in
  match getItem "index" self w with
  | Normal (o, _) =>
      Serial.ticks 1 (Engine.subscribe_connected 0 (Service.getItem o (Some schema)) w)
      = notify 0 (error (Error "JSON invalid")) w
  | Throw _ => False
  end.
Proof.
  intros schema w self.
  destruct (schema_validated_reads "index" schema) as (Hdb & _).
  destruct (Hdb 0 self w w
              (onDatabase readonly (requestEventsAndMapTo (store_get "index")
                                      getItem_mapCallback))
              1 (JObject [("unexpected", JString "value")]))
    as (Hfail & _); [reflexivity|reflexivity|reflexivity|lia|reflexivity|].
  apply Hfail; [done|reflexivity].
Defined.

End ModernBrowser.

Section OlderBrowser.
Import IndexedDB.
#[local] Existing Instance TextJSON.json.
#[local] Existing Instance older_browser.

(** Why the lookup has to see the record: without [getKey] the value is
    read in place of the key, a record that holds [undefined] (stored
    with the native API) reads as no record, and the write is an [add]
    over it, which fails. *)
Lemma write_over_undefined_fails :
  notified
    (browser
       (run (constructor None "ngStorage" "localStorage" (holding "k" JUndefined))
            [OpenSuccess; Call (call_setItem "k" (JString "a")); Tick; Tick;
             Call (call_getItem "k"); Tick]))
  = [(1, next_complete JNull);
     (0, error (DOMException "ConstraintError" "Key already exists in the object store"))].
Proof. vm_compute. reflexivity. Qed.



End OlderBrowser.

(** ** The rest of the contract on the database *)

Module ContractFacts.
Import Serial SerialFacts IndexedDB IndexedDBFacts.
Section Facts.
Context `{JSON} `{IDBFactory}.

Lemma with_records_twice r r' (w : Browser) :
  with_records r (with_records r' w) = with_records r w.
Proof. reflexivity. Qed.

Lemma getKeysFromCursor_in_place events : forall keys p,
  getKeysFromCursor keys events = Some p -> in_place p.
Proof.
  induction events as [|cursor events IH]; intros keys p; simpl; [done|].
  destruct (JS.to_boolean cursor); [apply IH|]. intros [= <-]. constructor.
Qed.

(** The walk of the cursor over all records collects their keys. *)
Lemma getKeysFromCursor_records (l : list (string * jsval)) : forall keys,
  getKeysFromCursor keys
    (((fun kv => JObject [("key", JString kv.1); ("value", kv.2)]) <$> l) ++ [JNull])
  = Some (inner (observableOf (JArray (keys ++ (JString <$> l.*1))))).
Proof.
  induction l as [|[k v] l IH]; intros keys; simpl.
  - by rewrite app_nil_r.
  - rewrite IH. by rewrite <- app_assoc.
Qed.

(** What a method gives on the database does not depend on the instance
    or on the browser. *)
Lemma method_database op self self' w w' mode body :
  fallback self = None -> fallback self' = None ->
  method op self w = Normal (onDatabase mode body, w) ->
  method op self' w' = Normal (onDatabase mode body, w').
Proof.
  intros Hfb Hfb'. destruct op; simpl;
    unfold getItem, setItem, removeItem, clear, keys, has, size;
    rewrite Hfb, Hfb';
    try (destruct (JS.is_undefined data || JS.is_null data));
    intros Hm; inversion Hm; subst; done.
Qed.

(** The programs of the methods stay within their transaction and place
    one request, or two. *)
Lemma method_in_place op self w w' mode body :
  fallback self = None ->
  method op self w = Normal (onDatabase mode body, w') ->
  in_place body /\ requesting body = true
  /\ forall r, 1 <= requests body r <= 2.
Proof.
  intros Hfb. destruct op; simpl;
    unfold getItem, setItem, removeItem, clear, keys, has, size; rewrite Hfb;
    try (destruct (JS.is_undefined data || JS.is_null data));
    intros Hm; inversion Hm; subst; clear Hm.
  - split; [apply requestEventsAndMapTo_in_place|]. split; [done|].
    intros r. simpl. destruct (getItem_mapCallback _); simpl; lia.
  - split.
    { apply requestEvents_in_place. intros. apply requestEventsAndMapTo_in_place. }
    split; [done|]. intros r. unfold getKeyRequest.
    destruct hasGetKey; simpl; destruct (r !! key) as [x|] eqn:Hr; simpl;
      try destruct (JS.is_undefined x); simpl; rewrite ?Hr; simpl; lia.
  - split; [apply requestEventsAndMapTo_in_place|]. split; [done|].
    intros r. simpl. lia.
  - split; [apply requestEventsAndMapTo_in_place|]. split; [done|].
    intros r. simpl. lia.
  - destruct hasGetAllKeys.
    + split; [apply requestEventsAndMapTo_in_place|]. split; [done|].
      intros r. simpl. lia.
    + split; [constructor; intros; by eapply getKeysFromCursor_in_place|].
      split; [done|]. intros r. simpl. unfold Engine.cursor_events.
      rewrite getKeysFromCursor_records. simpl. lia.
  - split; [apply requestEventsAndMapTo_in_place|]. split; [done|].
    intros r. unfold getKeyRequest. destruct hasGetKey; simpl; lia.
  - split; [apply requestEventsAndMapTo_in_place|]. split; [done|].
    intros r. simpl. lia.
Qed.

(** One call on the idle database, served. *)
Lemma one_call st op mode body n :
  primary st -> idle (browser st) ->
  method op (this st) (browser st) = Normal (onDatabase mode body, browser st) ->
  requests body (records (browser st)) <= n ->
  browser (run st (Call op :: repeat Tick n))
  = complete (subscribers st) body (browser st).
Proof.
  intros Hp Hi Hm Hn.
  destruct (method_in_place _ _ _ _ _ _ (proj1 Hp) Hm) as (Hin & Hrq & Hcost).
  destruct (call_settles st _ _ _ Hp (idle_in_place _ Hi) Hm Hin Hrq)
    as (Hp1 & Hq1 & Hs1 & Hd1 & Hw1).
  rewrite run_cons.
  destruct (ticks_settles _ n Hp1 Hq1) as (_ & _ & _ & _ & _ & Hfin).
  rewrite Hfin, Hd1, drain_idle; try done.
  rewrite Hw1, work_of_idle, drain_idle by done.
  specialize (Hcost (records (browser st))). lia.
Qed.

(** Two calls on the idle database, with ticks between and after. *)
Lemma two_calls st op1 op2 mode1 body1 mode2 body2 a b :
  primary st -> idle (browser st) ->
  method op1 (this st) (browser st) = Normal (onDatabase mode1 body1, browser st) ->
  method op2 (this st) (browser st) = Normal (onDatabase mode2 body2, browser st) ->
  (2 - a) + 2 <= b ->
  browser (run st (Call op1 :: repeat Tick a ++ Call op2 :: repeat Tick b))
  = complete (S (subscribers st)) body2
      (complete (subscribers st) body1 (browser st)).
Proof.
  intros Hp Hi Hm1 Hm2 Hb.
  destruct (method_in_place _ _ _ _ _ _ (proj1 Hp) Hm1) as (Hin1 & Hrq1 & Hcost1).
  destruct (method_in_place _ _ _ _ _ _ (proj1 Hp) Hm2) as (Hin2 & Hrq2 & Hcost2).
  destruct (call_settles st _ _ _ Hp (idle_in_place _ Hi) Hm1 Hin1 Hrq1)
    as (Hp1 & Hq1 & Hs1 & Hd1 & Hw1).
  rewrite run_cons, run_app.
  destruct (ticks_settles _ a Hp1 Hq1) as (Hp2 & Hq2 & Hs2 & Hd2 & Hw2 & _).
  pose proof (method_database op2 _ _ _
                (browser (run (step st (Call op1)) (repeat Tick a))) _ _
                (proj1 Hp) (proj1 Hp2) Hm2) as Hm2'.
  destruct (call_settles _ _ _ _ Hp2 Hq2 Hm2' Hin2 Hrq2)
    as (Hp3 & Hq3 & Hs3 & Hd3 & Hw3).
  rewrite run_cons.
  destruct (ticks_settles _ b Hp3 Hq3) as (_ & _ & _ & _ & _ & Hfin).
  rewrite Hfin.
  - by rewrite Hd3, Hd2, Hd1, drain_idle, Hs2, Hs1.
  - rewrite Hw3, Hw2, Hw1, work_of_idle by done.
    pose proof (Hcost1 (records (drain (browser st)))).
    pose proof (Hcost2 (records (drain (browser (run (step st (Call op1))
                                                   (repeat Tick a)))))).
    lia.
Qed.

(** Three calls on the idle database, with ticks between and after. *)
Lemma three_calls st op1 op2 op3 mode1 body1 mode2 body2 mode3 body3 a b c :
  primary st -> idle (browser st) ->
  method op1 (this st) (browser st) = Normal (onDatabase mode1 body1, browser st) ->
  method op2 (this st) (browser st) = Normal (onDatabase mode2 body2, browser st) ->
  method op3 (this st) (browser st) = Normal (onDatabase mode3 body3, browser st) ->
  ((2 - a) + 2 - b) + 2 <= c ->
  browser (run st (Call op1 :: repeat Tick a ++ Call op2 :: repeat Tick b
                   ++ Call op3 :: repeat Tick c))
  = complete (S (S (subscribers st))) body3
      (complete (S (subscribers st)) body2
         (complete (subscribers st) body1 (browser st))).
Proof.
  intros Hp Hi Hm1 Hm2 Hm3 Hc.
  destruct (method_in_place _ _ _ _ _ _ (proj1 Hp) Hm1) as (Hin1 & Hrq1 & Hcost1).
  destruct (method_in_place _ _ _ _ _ _ (proj1 Hp) Hm2) as (Hin2 & Hrq2 & Hcost2).
  destruct (method_in_place _ _ _ _ _ _ (proj1 Hp) Hm3) as (Hin3 & Hrq3 & Hcost3).
  destruct (call_settles st _ _ _ Hp (idle_in_place _ Hi) Hm1 Hin1 Hrq1)
    as (Hp1 & Hq1 & Hs1 & Hd1 & Hw1).
  rewrite run_cons, run_app.
  destruct (ticks_settles _ a Hp1 Hq1) as (Hp2 & Hq2 & Hs2 & Hd2 & Hw2 & _).
  pose proof (method_database op2 _ _ _
                (browser (run (step st (Call op1)) (repeat Tick a))) _ _
                (proj1 Hp) (proj1 Hp2) Hm2) as Hm2'.
  destruct (call_settles _ _ _ _ Hp2 Hq2 Hm2' Hin2 Hrq2)
    as (Hp3 & Hq3 & Hs3 & Hd3 & Hw3).
  rewrite run_cons, run_app.
  destruct (ticks_settles _ b Hp3 Hq3) as (Hp4 & Hq4 & Hs4 & Hd4 & Hw4 & _).
  set (st4 := run (step (run (step st (Call op1)) (repeat Tick a)) (Call op2))
                  (repeat Tick b)) in *.
  pose proof (method_database op3 _ _ _ (browser st4) _ _
                (proj1 Hp) (proj1 Hp4) Hm3) as Hm3'.
  destruct (call_settles _ _ _ _ Hp4 Hq4 Hm3' Hin3 Hrq3)
    as (Hp5 & Hq5 & Hs5 & Hd5 & Hw5).
  rewrite run_cons.
  destruct (ticks_settles _ c Hp5 Hq5) as (_ & _ & _ & _ & _ & Hfin).
  rewrite Hfin.
  - by rewrite Hd5, Hd4, Hd3, Hd2, Hd1, drain_idle, Hs4, Hs3, Hs2, Hs1.
  - rewrite Hw5, Hw4, Hw3, Hw2, Hw1, work_of_idle by done.
    pose proof (Hcost1 (records (drain (browser st)))).
    pose proof (Hcost2 (records (drain (browser (run (step st (Call op1))
                                                   (repeat Tick a)))))).
    pose proof (Hcost3 (records (drain (browser st4)))).
    lia.
Qed.

(** What the transaction of [setItem] comes to, whatever is under the
    key: the write is an [add] when the lookup finds nothing and a [put]
    otherwise, and an [add] over a record the lookup missed fails. *)
Lemma setItem_complete st key data :
  primary st -> data <> JUndefined -> data <> JNull ->
  exists body,
    method (call_setItem key data) (this st) (browser st)
    = Normal (onDatabase readwrite body, browser st)
    /\ forall id w,
         complete id body w
         = match records w !! key with
           | Some x =>
               if hasGetKey || negb (JS.is_undefined x)
               then notify id (next_complete (JBool true))
                      (with_records (<[key := JObject [(dataPath, data)]]> (records w)) w)
               else notify id
                      (error (DOMException "ConstraintError"
                                "Key already exists in the object store")) w
           | None =>
               notify id (next_complete (JBool true))
                 (with_records (<[key := JObject [(dataPath, data)]]> (records w)) w)
           end.
Proof.
  intros [Hfb _] Hu Hn. eexists. split.
  { simpl. unfold setItem. rewrite Hfb. by destruct data. }
  intros id w. unfold getKeyRequest.
  destruct hasGetKey; simpl; destruct (records w !! key) as [x|] eqn:Hr; simpl.
  - by rewrite with_records_twice.
  - rewrite Hr. by rewrite with_records_twice.
  - destruct (JS.is_undefined x); simpl.
    + rewrite Hr. by rewrite !with_records_id.
    + by rewrite with_records_twice.
  - rewrite Hr. by rewrite with_records_twice.
Qed.

(** Every transaction of a method ends with one notification of its
    subscriber, a value or a failure. *)
Lemma method_answers op self w w' mode body :
  fallback self = None ->
  method op self w = Normal (onDatabase mode body, w') ->
  forall id w0,
    exists note r,
      complete id body w0 = notify id note (with_records r w0)
      /\ forall e, note <> thrown e.
Proof.
  intros Hfb. destruct op; simpl;
    unfold getItem, setItem, removeItem, clear, keys, has, size; rewrite Hfb;
    try (destruct (JS.is_undefined data || JS.is_null data));
    intros Hm; inversion Hm; subst; clear Hm; intros id w0.
  - simpl. destruct (getItem_mapCallback _); simpl;
      do 2 eexists; (split; [reflexivity|done]).
  - unfold getKeyRequest.
    destruct hasGetKey; simpl; destruct (records w0 !! key) as [x|] eqn:Hr; simpl;
      try destruct (JS.is_undefined x); simpl; rewrite ?Hr; simpl;
      do 2 eexists; (split; [reflexivity|done]).
  - simpl. do 2 eexists; (split; [reflexivity|done]).
  - simpl. do 2 eexists; (split; [reflexivity|done]).
  - destruct hasGetAllKeys; simpl.
    + do 2 eexists; (split; [reflexivity|done]).
    + unfold Engine.cursor_events. rewrite getKeysFromCursor_records. simpl.
      exists (next_complete (JArray (JString <$> (map_to_list (records w0)).*1))),
             (records w0).
      by rewrite with_records_id.
  - unfold getKeyRequest. destruct hasGetKey; simpl;
      do 2 eexists; (split; [reflexivity|done]).
  - simpl. do 2 eexists; (split; [reflexivity|done]).
Qed.

End Facts.
End ContractFacts.

Section Contract.
Context `{JSON} `{IDBFactory}.
Import Serial SerialFacts IndexedDB IndexedDBFacts ContractFacts.

(** X1. On the connected database, any call is answered exactly once
    when its transaction has been served, with a value or a failure and
    never with an exception thrown into the caller; two ticks of the
    engine are enough for every method, and nothing is left going on. *)
Theorem every_call_is_answered st op n :
  primary st -> idle (browser st) -> 2 <= n ->
  exists note r,
    browser (run st (Call op :: repeat Tick n))
    = notify (subscribers st) note (with_records r (browser st))
    /\ forall e, note <> thrown e.
Proof.
  intros Hp Hi Hn.
  destruct (method op (this st) (browser st)) as [[o w]|e] eqn:Hm.
  - destruct op; simpl in Hm;
      unfold getItem, setItem, removeItem, clear, keys, has, size in Hm;
      rewrite (proj1 Hp) in Hm;
      try (destruct (JS.is_undefined data || JS.is_null data) eqn:Hdata);
      inversion Hm; subst o w; clear Hm.
    2:{ exists (next_complete (JBool true)), (records (browser st)).
        split; [|done]. rewrite run_cons, primary_setItem_nothing, run_ticks.
        - simpl. rewrite ticks_idle by done. by rewrite with_records_id.
        - exact (proj1 Hp).
        - destruct data; simpl in Hdata; try done; eauto. }
    all: match goal with
         | |- context [Call ?op] =>
             eassert (method op (this st) (browser st) = Normal (_, browser st)) as Hm
               by (simpl; unfold getItem, setItem, removeItem, clear, keys, has, size;
                   rewrite (proj1 Hp), ?Hdata; reflexivity)
         end.
    all: destruct (method_in_place _ _ _ _ _ _ (proj1 Hp) Hm) as (_ & _ & Hcost).
    all: rewrite (one_call st _ _ _ n Hp Hi Hm)
           by (specialize (Hcost (records (browser st))); lia).
    all: exact (method_answers _ _ _ _ _ _ (proj1 Hp) Hm _ _).
  - destruct op; simpl in Hm;
      unfold getItem, setItem, removeItem, clear, keys, has, size in Hm;
      rewrite (proj1 Hp) in Hm;
      try (destruct (JS.is_undefined data || JS.is_null data)); done.
Qed.

(** X2. [keys] on the connected database tells the keys of the records:
    every key that has a record and no other, each once.  The answer is
    the same whether the engine has [getAllKeys] or the keys are
    collected from a cursor. *)
Theorem keys_lists_every_key st n :
  primary st -> idle (browser st) -> 1 <= n ->
  exists names : list string,
    browser (run st (Call call_keys :: repeat Tick n))
    = notify (subscribers st) (next_complete (JArray (JString <$> names))) (browser st)
    /\ NoDup names
    /\ forall key, key ∈ names <-> is_Some (records (browser st) !! key).
Proof.
  intros Hp Hi Hn. exists (map_to_list (records (browser st))).*1.
  split; [|split].
  - eassert (method call_keys (this st) (browser st) = Normal (_, browser st)) as Hm
      by (simpl; unfold keys; rewrite (proj1 Hp); reflexivity).
    rewrite (one_call st _ _ _ n Hp Hi Hm).
    + destruct hasGetAllKeys; simpl.
      * by rewrite with_records_id.
      * unfold Engine.cursor_events. by rewrite getKeysFromCursor_records.
    + destruct hasGetAllKeys; simpl; [done|].
      unfold Engine.cursor_events. by rewrite getKeysFromCursor_records.
  - apply NoDup_fst_map_to_list.
  - intros key. rewrite list_elem_of_fmap. split.
    + intros ([k v] & -> & Hkv). apply elem_of_map_to_list in Hkv. by eexists.
    + intros [v Hv]. exists (key, v). split; [done|]. by apply elem_of_map_to_list.
Qed.

(** X3. [has] on the connected database tells whether there is a record
    under the key; where the engine has no [getKey] the value is read in
    place of the key, and a record that holds [undefined] is told
    absent. *)
Theorem has_tells_presence st key n :
  primary st -> idle (browser st) -> 1 <= n ->
  exists found : bool,
    browser (run st (Call (call_has key) :: repeat Tick n))
    = notify (subscribers st) (next_complete (JBool found)) (browser st)
    /\ (found = true <->
        exists record, records (browser st) !! key = Some record
                       /\ (hasGetKey = true \/ record <> JUndefined)).
Proof.
  intros Hp Hi Hn.
  eassert (method (call_has key) (this st) (browser st) = Normal (_, browser st)) as Hm
    by (simpl; unfold has; rewrite (proj1 Hp); reflexivity).
  rewrite (one_call st _ _ _ n Hp Hi Hm)
    by (unfold getKeyRequest; destruct hasGetKey; simpl; done).
  unfold getKeyRequest. destruct hasGetKey; simpl; rewrite with_records_id.
  - destruct (records (browser st) !! key) as [x|] eqn:Hr; simpl.
    + exists true. split; [done|]. split; [eauto|done].
    + exists false. split; [done|]. split; [done|]. by intros (? & ? & _).
  - eexists. split; [reflexivity|].
    destruct (records (browser st) !! key) as [x|] eqn:Hr; simpl.
    + destruct x; simpl; split; intros Hx; try done;
        try (eexists; split; [done|]; by right).
      destruct Hx as (? & [= <-] & [?|?]); done.
    + split; [done|]. by intros (? & ? & _).
Qed.

(** X4. [size] after a write: [setItem] of a value under a new key makes
    the store one record larger, under a key that has a record it leaves
    the number as it is. *)
Theorem setItem_then_size st key v a b :
  v <> JUndefined -> v <> JNull ->
  primary st -> idle (browser st) ->
  lookup_sees key (records (browser st)) ->
  (2 - a) + 2 <= b ->
  notified
    (browser (run st (Call (call_setItem key v) :: repeat Tick a
                      ++ Call call_size :: repeat Tick b)))
  = (S (subscribers st),
     next_complete
       (JNumber (Z.of_nat (match records (browser st) !! key with
                           | Some _ => map_size (records (browser st))
                           | None => S (map_size (records (browser st)))
                           end))))
      :: (subscribers st, next_complete (JBool true))
      :: notified (browser st).
Proof.
  intros Hu Hn Hp Hi Hsees Hb.
  destruct (primary_setItem st key v Hp Hu Hn) as (body & Hm & _ & _ & _ & Hc).
  eassert (method call_size (this st) (browser st) = Normal (_, browser st)) as Hm2
    by (simpl; unfold size; rewrite (proj1 Hp); reflexivity).
  rewrite (two_calls st _ _ _ _ _ _ a b Hp Hi Hm Hm2 Hb).
  rewrite Hc by done. simpl.
  pose proof (map_size_insert (M := gmap string) key (JObject [(dataPath, v)])
                (records (browser st))) as Hsize.
  unfold base.size in Hsize. rewrite Hsize.
  by destruct (records (browser st) !! key).
Qed.

(** X5. After [clear] the store holds no record, and [getItem] of any
    key yields [null], whether or not the caller waits for [clear]. *)
Theorem clear_then_getItem st key a b :
  primary st -> idle (browser st) ->
  (2 - a) + 2 <= b ->
  browser (run st (Call call_clear :: repeat Tick a
                   ++ Call (call_getItem key) :: repeat Tick b))
  = notify (S (subscribers st)) (next_complete JNull)
      (notify (subscribers st) (next_complete (JBool true))
         (with_records ∅ (browser st))).
Proof.
  intros Hp Hi Hb.
  eassert (method call_clear (this st) (browser st) = Normal (_, browser st)) as Hm
    by (simpl; unfold clear; rewrite (proj1 Hp); reflexivity).
  destruct (primary_getItem st key Hp) as (body & Hm2 & _ & _ & _ & Hc).
  rewrite (two_calls st _ _ _ _ _ _ a b Hp Hi Hm Hm2 Hb).
  by rewrite (Hc _ _ JNull).
Qed.

(** X6. A write or a removal under one key leaves the records under
    every other key as they are, whatever the data and whatever was
    under the key. *)
Theorem writes_keep_other_records st key other data n :
  key <> other -> primary st -> idle (browser st) -> 2 <= n ->
  records (browser (run st (Call (call_setItem key data) :: repeat Tick n))) !! other
  = records (browser st) !! other
  /\ records (browser (run st (Call (call_removeItem key) :: repeat Tick n))) !! other
     = records (browser st) !! other.
Proof.
  intros Hne Hp Hi Hn. split.
  - assert ((data = JUndefined \/ data = JNull)
            \/ (data <> JUndefined /\ data <> JNull)) as [Hd|[Hu Hnull]]
      by (destruct data; (left; by eauto) || (right; by split)).
    + rewrite run_cons, primary_setItem_nothing, run_ticks by (done || exact (proj1 Hp)).
      simpl. by rewrite ticks_idle.
    + destruct (setItem_complete st key data Hp Hu Hnull) as (body & Hm & Hc).
      destruct (method_in_place _ _ _ _ _ _ (proj1 Hp) Hm) as (_ & _ & Hcost).
      rewrite (one_call st _ _ _ n Hp Hi Hm)
        by (specialize (Hcost (records (browser st))); lia).
      rewrite Hc. destruct (records (browser st) !! key) as [x|];
        [destruct (hasGetKey || negb (JS.is_undefined x))|]; simpl;
        rewrite ?lookup_insert_ne; done.
  - destruct (primary_removeItem st key Hp) as (body & Hm & _ & _ & Hcost & Hc).
    rewrite (one_call st _ _ _ n Hp Hi Hm) by (rewrite Hcost; lia).
    rewrite Hc. simpl. by rewrite lookup_delete_ne.
Qed.

(** X7. On an engine without [getKey], [setItem] under a key whose
    record holds [undefined] is answered with the failure of the request,
    a [ConstraintError], and changes nothing. *)
Theorem setItem_over_undefined st key v n :
  hasGetKey = false ->
  records (browser st) !! key = Some JUndefined ->
  v <> JUndefined -> v <> JNull ->
  primary st -> idle (browser st) -> 2 <= n ->
  exists message,
    browser (run st (Call (call_setItem key v) :: repeat Tick n))
    = notify (subscribers st) (error (DOMException "ConstraintError" message))
        (browser st).
Proof.
  intros Hg Hr Hu Hn Hp Hi Hticks.
  destruct (setItem_complete st key v Hp Hu Hn) as (body & Hm & Hc).
  destruct (method_in_place _ _ _ _ _ _ (proj1 Hp) Hm) as (_ & _ & Hcost).
  rewrite (one_call st _ _ _ n Hp Hi Hm)
    by (specialize (Hcost (records (browser st))); lia).
  rewrite Hc, Hr, Hg. simpl. eauto.
Qed.

(** X8. [removeItem] is answered [true] whether or not there is a record
    under the key, and whatever the record is; afterwards there is none,
    and when there was none nothing has changed. *)
Theorem removeItem_whatever_is_there st key n :
  primary st -> idle (browser st) -> 1 <= n ->
  let final := browser (run st (Call (call_removeItem key) :: repeat Tick n)) in
  final = notify (subscribers st) (next_complete (JBool true))
            (with_records (delete key (records (browser st))) (browser st))
  /\ records final !! key = None
  /\ (records (browser st) !! key = None ->
      final = notify (subscribers st) (next_complete (JBool true)) (browser st)).
Proof.
  intros Hp Hi Hn final. subst final.
  destruct (primary_removeItem st key Hp) as (body & Hm & _ & _ & Hcost & Hc).
  rewrite (one_call st _ _ _ n Hp Hi Hm) by (rewrite Hcost; lia).
  rewrite Hc. split; [done|]. split.
  - simpl. apply lookup_delete_eq.
  - intros Hr. rewrite delete_id by done. by rewrite with_records_id.
Qed.

(** X9. A removal followed by a write under the same key, then a read:
    the read yields the value written, whether or not the caller waits
    between the calls, and whatever was under the key before, also a
    record the lookup of [setItem] would have missed. *)
Theorem removeItem_then_setItem st key v a b c :
  v <> JUndefined -> v <> JNull ->
  primary st -> idle (browser st) ->
  ((2 - a) + 2 - b) + 2 <= c ->
  notified
    (browser (run st (Call (call_removeItem key) :: repeat Tick a
                      ++ Call (call_setItem key v) :: repeat Tick b
                      ++ Call (call_getItem key) :: repeat Tick c)))
  = (S (S (subscribers st)), next_complete v)
      :: (S (subscribers st), next_complete (JBool true))
      :: (subscribers st, next_complete (JBool true))
      :: notified (browser st).
Proof.
  intros Hu Hn Hp Hi Hc.
  destruct (primary_removeItem st key Hp) as (body1 & Hm1 & _ & _ & _ & Hc1).
  destruct (primary_setItem st key v Hp Hu Hn) as (body2 & Hm2 & _ & _ & _ & Hc2).
  destruct (primary_getItem st key Hp) as (body3 & Hm3 & _ & _ & _ & Hc3).
  rewrite (three_calls st _ _ _ _ _ _ _ _ _ a b c Hp Hi Hm1 Hm2 Hm3 Hc).
  rewrite Hc1, Hc2.
  - rewrite (Hc3 _ _ v); [done|]. simpl. rewrite lookup_insert_eq. simpl.
    rewrite getItem_mapCallback_spec. simpl. by destruct v.
  - right. simpl. by rewrite lookup_delete_eq.
Qed.

(** X10. Calls made while the open request is awaited wait for the
    connection and are then served in the order they were made: making
    them before the success of the request comes to the same as making
    them right after it. *)
Theorem calls_wait_for_connection ops : forall st observers,
  fallback (this st) = None -> database (this st) = subject_empty observers ->
  opening st = true ->
  Forall (fun op => transactional op = true) ops ->
  run st ((Call <$> ops) ++ [OpenSuccess]) = run st (OpenSuccess :: (Call <$> ops)).
Proof.
  induction ops as [|op ops IH]; intros st observers Hfb Hdb Ho Hops; [done|].
  apply Forall_cons in Hops as [Hop Hops].
  change ((Call <$> op :: ops) ++ [OpenSuccess])%list
    with (Call op :: ((Call <$> ops) ++ [OpenSuccess]))%list.
  rewrite run_cons.
  destruct (method_transactional op (this st) (browser st) Hfb Hop)
    as (mode & body & Hm).
  assert (fallback (this (step st (Call op))) = None
          /\ (exists observers',
                database (this (step st (Call op))) = subject_empty observers')
          /\ opening (step st (Call op)) = true) as (Hfb' & [observers' Hdb'] & Ho').
  { simpl. rewrite Hm. simpl. rewrite Hdb. simpl. eauto. }
  rewrite (IH _ _ Hfb' Hdb' Ho' Hops).
  change (Call <$> op :: ops) with (Call op :: (Call <$> ops)).
  rewrite !run_cons.
  by rewrite (call_waits_for_connection st op observers).
Qed.

(** X11. A call made while the open request is awaited is never answered
    once the request has failed: the fallback is set, and the subscriber
    goes on waiting for the connection. *)
Theorem call_before_failure_is_never_answered st op e observers :
  fallback (this st) = None -> database (this st) = subject_empty observers ->
  opening st = true -> idle (browser st) ->
  outcome (subscribers st) (browser st) = None ->
  transactional op = true ->
  never_told (subscribers st) (run st [Call op; OpenError e]).
Proof.
  intros Hfb Hdb Ho Hi Hout Hop.
  destruct (method_transactional op (this st) (browser st) Hfb Hop)
    as (mode & body & Hm).
  apply FallbackFacts.disconnected_never_told.
  - rewrite !run_cons, run_nil. simpl. rewrite Hm. simpl. rewrite Hdb. simpl.
    rewrite Ho. split; [done|]. simpl. eauto.
  - rewrite !run_cons, run_nil. simpl. rewrite Hm. simpl. rewrite Hdb. simpl.
    by rewrite Ho.
  - rewrite !run_cons, run_nil. simpl. rewrite Hm. simpl. rewrite Hdb. simpl.
    by rewrite Ho.
  - rewrite !run_cons, run_nil. simpl. rewrite Hm. simpl. rewrite Hdb. simpl.
    rewrite Ho. simpl. lia.
Qed.

End Contract.

(** ** The earlier revision on the database *)

Module EarlierFacts.
Import Serial SerialFacts IndexedDBEarlier.
Section Facts.
Context `{IDBFactory}.

Lemma earlier_run_app st e1 e2 : run st (e1 ++ e2) = run (run st e1) e2.
Proof. apply foldl_app. Qed.

Lemma earlier_run_cons st e events : run st (e :: events) = run (step st e) events.
Proof. reflexivity. Qed.

Lemma earlier_run_ticks st n :
  run st (repeat Tick n)
  = {| this := this st; opening := opening st; browser := ticks n (browser st);
       subscribers := subscribers st |}.
Proof.
  revert st. induction n; intros st.
  - by destruct st.
  - change (repeat Tick (S n)) with (Tick :: repeat Tick n).
    rewrite earlier_run_cons, IHn, ticks_S. reflexivity.
Qed.

(** A call on the connected instance opens a transaction for a new
    subscriber. *)
Lemma earlier_step_call st op mode body :
  connected st ->
  method op = Normal (onDatabase mode body) ->
  step st (Call op)
  = {| this := this st; opening := opening st;
       browser := Engine.open_transaction (subscribers st) mode body (browser st);
       subscribers := S (subscribers st) |}.
Proof.
  unfold connected. intros Hdb Hm. simpl. rewrite Hm. simpl. rewrite Hdb.
  destruct st as [[? ?] ? ? ?]; simpl in *; by subst.
Qed.

(** One call whose transaction stays in place, served. *)
Lemma earlier_one_call st op mode body n :
  connected st -> idle (browser st) ->
  method op = Normal (onDatabase mode body) ->
  in_place body -> requesting body = true ->
  1 <= n -> requests body (records (browser st)) <= n ->
  browser (run st (Call op :: repeat Tick n))
  = complete (subscribers st) body (browser st).
Proof.
  intros Hc Hi Hm Hin Hrq Hone Hn.
  rewrite earlier_run_cons, (earlier_step_call st op mode body Hc Hm), earlier_run_ticks.
  simpl. rewrite ticks_settle.
  - by rewrite open_drain, drain_idle.
  - by apply open_in_place, IndexedDBFacts.idle_in_place.
  - rewrite open_work, work_of_idle, drain_idle by done. lia.
Qed.

(** Two calls whose transactions stay in place, with ticks between and
    after. *)
Lemma earlier_two_calls st op1 op2 mode1 body1 mode2 body2 a b :
  connected st -> idle (browser st) ->
  method op1 = Normal (onDatabase mode1 body1) ->
  method op2 = Normal (onDatabase mode2 body2) ->
  in_place body1 -> requesting body1 = true ->
  in_place body2 -> requesting body2 = true ->
  (forall r, requests body1 r <= 2) -> (forall r, requests body2 r <= 2) ->
  (2 - a) + 2 <= b ->
  browser (run st (Call op1 :: repeat Tick a ++ Call op2 :: repeat Tick b))
  = complete (S (subscribers st)) body2
      (complete (subscribers st) body1 (browser st)).
Proof.
  intros Hc Hi Hm1 Hm2 Hin1 Hrq1 Hin2 Hrq2 Hcost1 Hcost2 Hb.
  rewrite earlier_run_cons, (earlier_step_call st op1 mode1 body1 Hc Hm1).
  rewrite earlier_run_app, earlier_run_ticks.
  cbn [this opening browser subscribers].
  set (w1 := Engine.open_transaction (subscribers st) mode1 body1 (browser st)).
  assert (queue_in_place w1) as Hq1
    by (by apply open_in_place, IndexedDBFacts.idle_in_place).
  rewrite earlier_run_cons, (earlier_step_call _ op2 mode2 body2); [|exact Hc|exact Hm2].
  rewrite earlier_run_ticks. cbn [this opening browser subscribers].
  rewrite ticks_settle.
  - rewrite open_drain, ticks_drain by done. unfold w1.
    by rewrite open_drain, drain_idle.
  - by apply open_in_place, ticks_in_place.
  - rewrite open_work, ticks_work, ticks_drain by done. unfold w1.
    rewrite open_work, work_of_idle by done.
    pose proof (Hcost1 (records (drain (browser st)))).
    pose proof (Hcost2 (records (drain (Engine.open_transaction (subscribers st) mode1
                                          body1 (browser st))))).
    lia.
Qed.

End Facts.
End EarlierFacts.

Section EarlierContract.
Context `{IDBFactory}.
Import Serial SerialFacts IndexedDBEarlier EarlierFacts.

(** X12. The earlier revision, on its connection: a value other than
    [null] and [undefined] written with [setItem] is what [getItem] of
    the key yields, whether or not the caller waits for the write; the
    lookup before the write has to see the record under the key. *)
Theorem earlier_setItem_then_getItem st key v a b :
  v <> JUndefined -> v <> JNull ->
  connected st -> idle (browser st) ->
  lookup_sees key (records (browser st)) ->
  (2 - a) + 2 <= b ->
  notified
    (browser (run st (Call (call_setItem key v) :: repeat Tick a
                      ++ Call (call_getItem key) :: repeat Tick b)))
  = (S (subscribers st), next_complete v)
      :: (subscribers st, next_complete (JBool true))
      :: notified (browser st).
Proof.
  intros Hu Hn Hc Hi Hsees Hb.
  assert (JS.loose_null v = false) as Hl by (by destruct v).
  eassert (method (call_setItem key v) = Normal (onDatabase _ _)) as Hm1
    by (simpl; unfold setItem; rewrite Hl; reflexivity).
  eassert (method (call_getItem key) = Normal (onDatabase _ _)) as Hm2
    by reflexivity.
  rewrite (earlier_two_calls st _ _ _ _ _ _ a b Hc Hi Hm1 Hm2); try done.
  - destruct Hsees as [Hg|Hr].
    + rewrite Hg. simpl.
      destruct (records (browser st) !! key) as [x|] eqn:Hr; simpl; rewrite ?Hr; simpl;
        rewrite lookup_insert_eq; simpl; by destruct v.
    + destruct hasGetKey; simpl;
        destruct (records (browser st) !! key) as [x|] eqn:Hx; simpl;
        try (destruct x; try done); simpl; rewrite ?Hx; simpl;
        rewrite lookup_insert_eq; simpl; by destruct v.
  - constructor. intros result. constructor. intros. constructor.
  - constructor. intros result. unfold map_callback.
    destruct (getItem_callback result); constructor.
  - intros r. destruct hasGetKey; simpl; destruct (r !! key) as [x|] eqn:Hx; simpl;
      try destruct (JS.is_undefined x); simpl; rewrite ?Hx; simpl; lia.
  - intros r. simpl. destruct (getItem_callback _); simpl; lia.
Qed.

(** X13. The earlier revision has no fallback: when the open request
    fails, the subscriber that waits for the connection and every later
    one are told the failure, with the message of the request. *)
Theorem earlier_connection_failure st op1 op2 mode1 body1 mode2 body2 e :
  database (this st) = subject_empty [] -> opening st = true ->
  method op1 = Normal (onDatabase mode1 body1) ->
  method op2 = Normal (onDatabase mode2 body2) ->
  let failure :=
    error (Error ("IndexedDB connection issue : " ++ message_of e ++ ".")) in
  browser (run st [Call op1; OpenError e; Call op2])
  = notify (S (subscribers st)) failure
      (notify (subscribers st) failure (browser st)).
Proof.
  intros Hdb Ho Hm1 Hm2 failure. subst failure.
  unfold run. simpl. rewrite Hm1, Hm2. simpl. rewrite Hdb. simpl. rewrite Ho. simpl.
  reflexivity.
Qed.

(** X14. In the earlier revision [getItem] of a key whose record is a
    primitive value that is truthy (stored with the native API) is
    answered with a failure, the [TypeError] of the [in] operator. *)
Theorem earlier_getItem_raw_primitive st key record n :
  connected st -> idle (browser st) ->
  records (browser st) !! key = Some record ->
  JS.to_boolean record = true -> JS.typeof_object record = false ->
  1 <= n ->
  exists message,
    browser (run st (Call (call_getItem key) :: repeat Tick n))
    = notify (subscribers st) (error (TypeError message)) (browser st).
Proof.
  intros Hc Hi Hr Ht Ho Hn.
  eassert (method (call_getItem key) = Normal (onDatabase _ _)) as Hm by reflexivity.
  rewrite (earlier_one_call st _ _ _ n Hc Hi Hm); try done.
  - simpl. rewrite Hr. simpl. unfold getItem_callback. rewrite Ht.
    destruct record; try done; simpl; eexists; by rewrite IndexedDBFacts.with_records_id.
  - constructor. intros result. unfold map_callback.
    destruct (getItem_callback result); constructor.
  - simpl. destruct (getItem_callback _); simpl; lia.
Qed.

(** X15. [removeItem] in the earlier revision looks the item up with
    [getItem] first and deletes the record only when that yields a value:
    a record for which [getItem] yields [null] stays where it is and the
    subscriber is told [true]; a record on which [getItem] fails stays
    as well and the subscriber is told the failure. *)
Theorem earlier_removeItem_outcome st key n :
  connected st -> idle (browser st) -> 2 <= n ->
  browser (run st (Call (call_removeItem key) :: repeat Tick n))
  = match getItem_callback (default JUndefined (records (browser st) !! key)) with
    | Normal data =>
        notify (subscribers st) (next_complete (JBool true))
          (if JS.loose_null data then browser st
           else with_records (delete key (records (browser st))) (browser st))
    | Throw e => notify (subscribers st) (error e) (browser st)
    end.
Proof.
  intros Hc Hi Hn.
  destruct n as [|[|n]]; [lia|lia|].
  change (repeat Tick (S (S n))) with (Tick :: Tick :: repeat Tick n).
  eassert (method (call_removeItem key) = Normal (onDatabase _ _)) as Hm by reflexivity.
  rewrite earlier_run_cons, (earlier_step_call st _ _ _ Hc Hm).
  rewrite !earlier_run_cons, earlier_run_ticks.
  cbn [this opening browser subscribers step].
  unfold idle in Hi. destruct (browser st) as [r txs ls log]. simpl in Hi. subst txs.
  cbn -[getItem_callback].
  destruct (getItem_callback (default JUndefined (r !! key))) as [data|e]; cbn.
  - destruct (JS.loose_null data); cbn; by rewrite ticks_idle.
  - by rewrite ticks_idle.
Qed.

(** X16. In the earlier revision a [setItem] called right after a
    [removeItem] of the same key, without waiting for it, is lost: the
    transaction that deletes is opened when the lookup of [removeItem]
    has been answered, after the transaction of the write, and takes the
    new record away.  Both subscribers are told [true]. *)
Theorem earlier_removeItem_overtakes_setItem st key record data v n :
  connected st -> idle (browser st) ->
  records (browser st) !! key = Some record ->
  getItem_callback record = Normal data -> JS.loose_null data = false ->
  v <> JUndefined -> v <> JNull ->
  4 <= n ->
  browser (run st (Call (call_removeItem key) :: Call (call_setItem key v)
                   :: repeat Tick n))
  = notify (subscribers st) (next_complete (JBool true))
      (notify (S (subscribers st)) (next_complete (JBool true))
         (with_records (delete key (records (browser st))) (browser st))).
Proof.
  intros Hc Hi Hr Hcb Hdata Hu Hnull Hn.
  destruct n as [|[|[|[|n]]]]; [lia|lia|lia|lia|].
  change (repeat Tick (S (S (S (S n)))))
    with (Tick :: Tick :: Tick :: Tick :: repeat Tick n).
  assert (JS.loose_null v = false) as Hl by (by destruct v).
  assert (JS.is_undefined record = false) as Hrecord
    by (destruct record; try done; by inversion Hcb; subst).
  eassert (method (call_removeItem key) = Normal (onDatabase _ _)) as Hm1 by reflexivity.
  eassert (method (call_setItem key v) = Normal (onDatabase _ _)) as Hm2
    by (simpl; unfold setItem; rewrite Hl; reflexivity).
  rewrite earlier_run_cons, (earlier_step_call st _ _ _ Hc Hm1).
  rewrite earlier_run_cons.
  erewrite (earlier_step_call _ (call_setItem key v)); [|exact Hc|exact Hm2].
  rewrite !earlier_run_cons, earlier_run_ticks.
  cbn [this opening browser subscribers step].
  unfold idle in Hi. destruct (browser st) as [r txs ls log]. simpl in *. subst txs.
  cbn -[getItem_callback]. rewrite Hr. cbn -[getItem_callback]. rewrite Hcb.
  cbn. rewrite Hdata. cbn.
  destruct hasGetKey; cbn; rewrite Hr; cbn; rewrite ?Hrecord; cbn;
    rewrite ticks_idle by done; unfold notify, with_records; cbn;
    by rewrite delete_insert_eq.
Qed.

End EarlierContract.

(** ** The rest of the contract on localStorage *)

Section LocalStorageContract.
Context `{JSON}.
Implicit Types (fb : LocalStorageDatabase) (s : gmap string string).

(** X17. On the localStorage backend a write or a removal under one key
    leaves what [getItem] yields for every other key as it is. *)
Theorem localStorage_writes_are_local fb key other data s :
  key <> other ->
  LocalStorage.getItem fb other (LocalStorage.setItem fb key data s).2
  = LocalStorage.getItem fb other s
  /\ LocalStorage.getItem fb other (LocalStorage.removeItem fb key s).2
     = LocalStorage.getItem fb other s.
Proof.
  intros Hne. unfold LocalStorage.getItem, Storage.getItem. simpl.
  unfold Storage.setItem, Storage.removeItem.
  by rewrite lookup_insert_ne, lookup_delete_ne.
Qed.

(** X18. On the localStorage backend, [getItem] yields [null] for a key
    that was removed and, after [clear], for every key, whatever text
    was stored before, also text that is not JSON. *)
Theorem localStorage_removed_is_null fb key s :
  LocalStorage.getItem fb key (LocalStorage.removeItem fb key s).2
  = Normal (observableOf JNull)
  /\ LocalStorage.getItem fb key (LocalStorage.clear fb s).2
     = Normal (observableOf JNull).
Proof.
  split; apply LocalStorageFacts.getItem_absent; simpl.
  - apply lookup_delete_eq.
  - apply lookup_empty.
Qed.

(** X19. [setItem] on the localStorage backend does not guard its data:
    a value that [JSON.stringify] gives no text for, such as
    [undefined], is stored as the text ["undefined"], the subscriber is
    told [true], and a later [getItem] of the key fails with "Invalid
    data in localStorage." *)
Theorem localStorage_setItem_without_text fb key data s e :
  JSON_stringify data = None ->
  JSON_parse "undefined" = Throw e ->
  (LocalStorage.setItem fb key data s).1 = observableOf (JBool true)
  /\ (LocalStorage.setItem fb key data s).2 !! key = Some "undefined"
  /\ LocalStorage.getItem fb key (LocalStorage.setItem fb key data s).2
     = Normal (observableThrow (Error "Invalid data in localStorage.")).
Proof.
  intros Hs Hp. split; [done|].
  assert ((LocalStorage.setItem fb key data s).2 !! key = Some "undefined") as Hk.
  { simpl. unfold Storage.setItem. rewrite Hs. simpl. apply lookup_insert_eq. }
  split; [done|]. by eapply LocalStorageFacts.getItem_unparsable.
Qed.

End LocalStorageContract.

(** ** The contract at work *)

Section ContractModernBrowser.
Import IndexedDB.
#[local] Existing Instance TextJSON.json.
#[local] Existing Instance modern_browser.

Lemma every_call_is_answered_witness :
  let st := run (constructor None "ngStorage" "localStorage" fresh) [OpenSuccess] in
  exists note r,
    browser (run st (Call call_size :: repeat Tick 2))
    = notify 0 note (with_records r (browser st))
    /\ forall e, note <> thrown e.
Proof.
  intros st.
  apply (every_call_is_answered st call_size 2); [split; reflexivity|reflexivity|lia].
Defined.

Lemma has_tells_presence_witness :
  let st := run (constructor None "ngStorage" "localStorage" (holding "k" JUndefined))
                [OpenSuccess] in
  exists found : bool,
    browser (run st (Call (call_has "k") :: repeat Tick 1))
    = notify 0 (next_complete (JBool found)) (browser st)
    /\ (found = true <->
        exists record, records (browser st) !! "k" = Some record
                       /\ (hasGetKey = true \/ record <> JUndefined)).
Proof.
  intros st.
  apply (has_tells_presence st "k" 1); [split; reflexivity|reflexivity|lia].
Defined.

Lemma setItem_then_size_witness :
  let st := run (constructor None "ngStorage" "localStorage"
                   (holding "k" (JObject [("value", JString "a")])))
                [OpenSuccess] in
  notified
    (browser (run st (Call (call_setItem "other" (JString "b")) :: repeat Tick 0
                      ++ Call call_size :: repeat Tick 4)))
  = [(1, next_complete (JNumber 2)); (0, next_complete (JBool true))].
Proof.
  intros st.
  apply (setItem_then_size st "other" (JString "b") 0 4);
    [done|done|split; reflexivity|reflexivity|left; reflexivity|simpl; lia].
Defined.

Lemma clear_then_getItem_witness :
  let st := run (constructor None "ngStorage" "localStorage"
                   (holding "k" (JObject [("value", JString "a")])))
                [OpenSuccess] in
  browser (run st (Call call_clear :: repeat Tick 0
                   ++ Call (call_getItem "k") :: repeat Tick 4))
  = {| records := ∅; transactions := []; localStorage := ∅;
       notified := [(1, next_complete JNull); (0, next_complete (JBool true))] |}.
Proof.
  intros st.
  apply (clear_then_getItem st "k" 0 4); [split; reflexivity|reflexivity|simpl; lia].
Defined.

Lemma writes_keep_other_records_witness :
  let st := run (constructor None "ngStorage" "localStorage"
                   (holding "k" (JObject [("value", JString "a")])))
                [OpenSuccess] in
  records (browser (run st (Call (call_setItem "other" (JString "b")) :: repeat Tick 2)))
    !! "k"
  = Some (JObject [("value", JString "a")])
  /\ records (browser (run st (Call (call_removeItem "other") :: repeat Tick 2))) !! "k"
     = Some (JObject [("value", JString "a")]).
Proof.
  intros st.
  apply (writes_keep_other_records st "other" "k" (JString "b") 2);
    [done|split; reflexivity|reflexivity|lia].
Defined.

Lemma removeItem_whatever_is_there_witness :
  let st := run (constructor None "ngStorage" "localStorage" (holding "k" (JString "raw")))
                [OpenSuccess] in
  let final := browser (run st (Call (call_removeItem "k") :: repeat Tick 1)) in
  final = notify 0 (next_complete (JBool true))
            (with_records (delete "k" (records (browser st))) (browser st))
  /\ records final !! "k" = None
  /\ (records (browser st) !! "k" = None ->
      final = notify 0 (next_complete (JBool true)) (browser st)).
Proof.
  intros st.
  apply (removeItem_whatever_is_there st "k" 1); [split; reflexivity|reflexivity|lia].
Defined.

Lemma calls_wait_for_connection_witness :
  let st := constructor None "ngStorage" "localStorage" fresh in
  let ops := [call_setItem "a" (JString "x"); call_getItem "a"; call_keys] in
  run st ((Call <$> ops) ++ [OpenSuccess]) = run st (OpenSuccess :: (Call <$> ops)).
Proof.
  intros st ops.
  apply (calls_wait_for_connection ops st []);
    [reflexivity|reflexivity|reflexivity|repeat constructor].
Defined.

Lemma call_before_failure_is_never_answered_witness :
  let st := constructor None "ngStorage" "localStorage" fresh in
  opening st = true
  /\ never_told 0
       (run st [Call (call_setItem "k" (JString "a"));
                OpenError (DOMException "UnknownError"
                             "Internal error opening backing store")]).
Proof.
  intros st. split; [reflexivity|].
  apply (call_before_failure_is_never_answered st (call_setItem "k" (JString "a")) _ []);
    reflexivity.
Defined.

Lemma earlier_setItem_then_getItem_witness :
  match IndexedDBEarlier.constructor None fresh with
  | Normal st0 =>
      let st := IndexedDBEarlier.run st0 [OpenSuccess] in
      notified
        (IndexedDBEarlier.browser
           (IndexedDBEarlier.run st
              (Call (call_setItem "test" (JString "blue")) :: repeat Tick 0
               ++ Call (call_getItem "test") :: repeat Tick 4)))
      = [(1, next_complete (JString "blue")); (0, next_complete (JBool true))]
  | Throw _ => False
  end.
Proof.
  cbv beta iota delta [IndexedDBEarlier.constructor cbind indexedDB_open modern_browser]. intros st.
  apply (earlier_setItem_then_getItem st "test" (JString "blue") 0 4);
    [done|done|reflexivity|reflexivity|left; reflexivity|simpl; lia].
Defined.

Lemma earlier_connection_failure_witness :
  match IndexedDBEarlier.constructor None fresh with
  | Normal st =>
      IndexedDBEarlier.browser
        (IndexedDBEarlier.run st
           [Call (call_getItem "k");
            OpenError (DOMException "UnknownError" "Internal error opening backing store");
            Call call_clear])
      = {| records := ∅; transactions := []; localStorage := ∅;
           notified :=
             [(1, error (Error "IndexedDB connection issue : Internal error opening backing store."));
              (0, error (Error "IndexedDB connection issue : Internal error opening backing store."))] |}
  | Throw _ => False
  end.
Proof.
  cbv beta iota delta [IndexedDBEarlier.constructor cbind indexedDB_open modern_browser].
  set (st := {| IndexedDBEarlier.this := _; IndexedDBEarlier.opening := true;
                IndexedDBEarlier.browser := fresh; IndexedDBEarlier.subscribers := 0 |}).
  exact (earlier_connection_failure st (call_getItem "k") call_clear _ _ _ _
           (DOMException "UnknownError" "Internal error opening backing store")
           eq_refl eq_refl eq_refl eq_refl).
Defined.

Lemma earlier_getItem_raw_primitive_witness :
  match IndexedDBEarlier.constructor None (holding "k" (JString "blue")) with
  | Normal st0 =>
      let st := IndexedDBEarlier.run st0 [OpenSuccess] in
      exists message,
        IndexedDBEarlier.browser
          (IndexedDBEarlier.run st (Call (call_getItem "k") :: repeat Tick 1))
        = notify 0 (error (TypeError message)) (IndexedDBEarlier.browser st)
  | Throw _ => False
  end.
Proof.
  cbv beta iota delta [IndexedDBEarlier.constructor cbind indexedDB_open modern_browser]. intros st.
  apply (earlier_getItem_raw_primitive st "k" (JString "blue") 1);
    [reflexivity|reflexivity|reflexivity|reflexivity|reflexivity|lia].
Defined.

Lemma earlier_removeItem_outcome_witness :
  match IndexedDBEarlier.constructor None
          (holding "k" (JObject [("value", JString "a")])) with
  | Normal st0 =>
      let st := IndexedDBEarlier.run st0 [OpenSuccess] in
      IndexedDBEarlier.browser
        (IndexedDBEarlier.run st (Call (call_removeItem "k") :: repeat Tick 2))
      = {| records := ∅; transactions := []; localStorage := ∅;
           notified := [(0, next_complete (JBool true))] |}
  | Throw _ => False
  end.
Proof.
  cbv beta iota delta [IndexedDBEarlier.constructor cbind indexedDB_open modern_browser]. intros st.
  rewrite (earlier_removeItem_outcome st "k" 2); [|reflexivity|reflexivity|lia].
  vm_compute. reflexivity.
Defined.

Lemma earlier_removeItem_overtakes_setItem_witness :
  match IndexedDBEarlier.constructor None
          (holding "k" (JObject [("value", JString "a")])) with
  | Normal st0 =>
      let st := IndexedDBEarlier.run st0 [OpenSuccess] in
      IndexedDBEarlier.browser
        (IndexedDBEarlier.run st
           (Call (call_removeItem "k") :: Call (call_setItem "k" (JString "b"))
            :: repeat Tick 4))
      = {| records := ∅; transactions := []; localStorage := ∅;
           notified := [(0, next_complete (JBool true));
                        (1, next_complete (JBool true))] |}
  | Throw _ => False
  end.
Proof.
  cbv beta iota delta [IndexedDBEarlier.constructor cbind indexedDB_open modern_browser]. intros st.
  rewrite (earlier_removeItem_overtakes_setItem st "k"
             (JObject [("value", JString "a")]) (JString "a") (JString "b") 4);
    [|reflexivity|reflexivity|reflexivity|reflexivity|reflexivity|done|done|lia].
  vm_compute. reflexivity.
Defined.

Lemma localStorage_writes_are_local_witness :
  let fb := new_LocalStorageDatabase None in
  let s : gmap string string := {["other" := "1"]} in
  LocalStorage.getItem fb "other" (LocalStorage.setItem fb "k" (JString "a") s).2
  = LocalStorage.getItem fb "other" s
  /\ LocalStorage.getItem fb "other" (LocalStorage.removeItem fb "k" s).2
     = LocalStorage.getItem fb "other" s.
Proof.
  intros fb s. by apply (localStorage_writes_are_local fb "k" "other" (JString "a") s).
Defined.

Lemma localStorage_setItem_without_text_witness :
  let fb := new_LocalStorageDatabase None in
  (LocalStorage.setItem fb "k" JUndefined ∅).1 = observableOf (JBool true)
  /\ (LocalStorage.setItem fb "k" JUndefined ∅).2 !! "k" = Some "undefined"
  /\ LocalStorage.getItem fb "k" (LocalStorage.setItem fb "k" JUndefined ∅).2
     = Normal (observableThrow (Error "Invalid data in localStorage.")).
Proof.
  intros fb.
  eapply (localStorage_setItem_without_text fb "k" JUndefined ∅); vm_compute; reflexivity.
Defined.

End ContractModernBrowser.

Section ContractOlderBrowser.
Import IndexedDB.
#[local] Existing Instance TextJSON.json.
#[local] Existing Instance older_browser.

Lemma keys_lists_every_key_witness :
  let st := run (constructor None "ngStorage" "localStorage"
                   (holding "k" (JObject [("value", JString "a")])))
                [OpenSuccess] in
  exists names : list string,
    browser (run st (Call call_keys :: repeat Tick 1))
    = notify 0 (next_complete (JArray (JString <$> names))) (browser st)
    /\ NoDup names
    /\ forall key, key ∈ names <-> is_Some (records (browser st) !! key).
Proof.
  intros st.
  apply (keys_lists_every_key st 1); [split; reflexivity|reflexivity|lia].
Defined.

Lemma setItem_over_undefined_witness :
  let st := run (constructor None "ngStorage" "localStorage" (holding "k" JUndefined))
                [OpenSuccess] in
  exists message,
    browser (run st (Call (call_setItem "k" (JString "a")) :: repeat Tick 2))
    = notify 0 (error (DOMException "ConstraintError" message)) (browser st).
Proof.
  intros st.
  apply (setItem_over_undefined st "k" (JString "a") 2);
    [reflexivity|reflexivity|done|done|split; reflexivity|reflexivity|lia].
Defined.

Lemma removeItem_then_setItem_witness :
  let st := run (constructor None "ngStorage" "localStorage" (holding "k" JUndefined))
                [OpenSuccess] in
  notified
    (browser (run st (Call (call_removeItem "k") :: repeat Tick 0
                      ++ Call (call_setItem "k" (JString "a")) :: repeat Tick 0
                      ++ Call (call_getItem "k") :: repeat Tick 6)))
  = [(2, next_complete (JString "a")); (1, next_complete (JBool true));
     (0, next_complete (JBool true))].
Proof.
  intros st.
  apply (removeItem_then_setItem st "k" (JString "a") 0 0 6);
    [done|done|split; reflexivity|reflexivity|simpl; lia].
Defined.

End ContractOlderBrowser.
